(** * anki-mcp-server: the text normaliser, the card query and the tool dispatcher

    A shallow embedding of [src/index.ts].

    - JavaScript strings are sequences of UTF-16 code units ([str]).
    - The regular expressions of [cleanWithRegex] are data of a small regex
      type, run by a backtracking matcher that follows the priority order of
      ECMAScript (greedy: longest first, lazy: shortest first).
    - Code that awaits the AnkiConnect client is a tree of backend calls
      ([Prog]); running a tree against a backend yields the calls made and
      either the returned value or the thrown value.
    - The catalogue of tools and the list of resources are data; the
      handler that reads a resource takes the parsing of the URI from the
      platform ([Web]). *)

From Stdlib Require Import List NArith ZArith QArith Bool Lia String Ascii.
From Stdlib Require Import DecimalString.
From Stdlib Require Import Sorting.Sorted Sorting.Permutation.
From ExtLib Require Import Structures.Monad Structures.MonadExc.
Import ListNotations.
Import MonadNotation.
Local Open Scope monad_scope.
Close Scope Q_scope.

Set Warnings "-register-all".

(* ===================================================================== *)
(** ** JavaScript strings *)
(* ===================================================================== *)

Module Js.

(** A UTF-16 code unit. *)
Definition char := N.

(** A JavaScript string. *)
Definition str := list char.

(** The code units of an ASCII literal. *)
Definition lit (s : string) : str :=
  List.map N_of_ascii (list_ascii_of_string s).

Definition char_eqb (a b : char) : bool := N.eqb a b.

Fixpoint str_eqb (a b : str) : bool :=
  match a, b with
  | [], [] => true
  | x :: a', y :: b' => char_eqb x y && str_eqb a' b'
  | _, _ => false
  end.

Definition NL : char := 10%N.

(** [WhiteSpace] and [LineTerminator] of ECMAScript: what
    [String.prototype.trim] removes. *)
Definition is_space (c : char) : bool :=
  ((9 <=? c) && (c <=? 13) || (c =? 32) || (c =? 160) || (c =? 5760)
   || (8192 <=? c) && (c <=? 8202) || (c =? 8232) || (c =? 8233)
   || (c =? 8239) || (c =? 8287) || (c =? 12288) || (c =? 65279))%N.

Fixpoint trimStart (s : str) : str :=
  match s with
  | c :: s' => if is_space c then trimStart s' else s
  | [] => []
  end.

(** [trimEnd] keeps a character when it is not a space or when something
    is kept after it. *)
Fixpoint trimEnd (s : str) : str :=
  match s with
  | [] => []
  | c :: s' =>
      match trimEnd s' with
      | [] => if is_space c then [] else [c]
      | t => c :: t
      end
  end.

(** [s.trim()] *)
Definition trim (s : str) : str := trimEnd (trimStart s).

(** [s.split(sep)] for a separator of one code unit.  The empty string
    splits into one empty segment. *)
Fixpoint split (sep : char) (s : str) : list str :=
  match s with
  | [] => [[]]
  | c :: s' =>
      if char_eqb c sep then [] :: split sep s'
      else match split sep s' with
           | seg :: segs => (c :: seg) :: segs
           | [] => [[c]]
           end
  end.

(** [a.join(sep)] on an array of strings. *)
Fixpoint join (sep : str) (a : list str) : str :=
  match a with
  | [] => []
  | [x] => x
  | x :: a' => x ++ sep ++ join sep a'
  end.

End Js.

Import Js.

(* ===================================================================== *)
(** ** Regular expressions *)
(* ===================================================================== *)

Module Regex.

(** The fragment of regular expressions [cleanWithRegex] uses: a sequence
    of single characters (literal or class) and of quantified classes. *)
Inductive atom : Type :=
| One (p : char -> bool)        (* x, [^x], with or without the i flag *)
| Star (p : char -> bool)       (* [..]*   greedy *)
| Plus (p : char -> bool)       (* [..]+   greedy *)
| LazyStar (p : char -> bool).  (* [..]*?  lazy *)

Definition regex := list atom.

(** Greedy repetition: take one more character when possible; on failure
    of what follows, give it back. *)
Fixpoint greedy (p : char -> bool) (k : str -> option str) (s : str)
  : option str :=
  match s with
  | c :: s' =>
      if p c then
        match greedy p k s' with
        | Some r => Some r
        | None => k s
        end
      else k s
  | [] => k s
  end.

(** Lazy repetition: try what follows first; on failure take one more
    character. *)
Fixpoint lazy_star (p : char -> bool) (k : str -> option str) (s : str)
  : option str :=
  match k s with
  | Some r => Some r
  | None =>
      match s with
      | c :: s' => if p c then lazy_star p k s' else None
      | [] => None
      end
  end.

(** [exec r s]: match [r] at the start of [s]; the result is what is left
    of [s] after the match the backtracking finds first. *)
Fixpoint exec (r : regex) : str -> option str :=
  match r with
  | [] => fun s => Some s
  | One p :: r' =>
      fun s => match s with
               | c :: s' => if p c then exec r' s' else None
               | [] => None
               end
  | Star p :: r' => greedy p (exec r')
  | Plus p :: r' =>
      fun s => match s with
               | c :: s' => if p c then greedy p (exec r') s' else None
               | [] => None
               end
  | LazyStar p :: r' => lazy_star p (exec r')
  end.

(** [s.replace(/r/g, repl)] for a replacement without [$]: scan from the
    left; where [r] matches, emit [repl] and go on after the match; elsewhere
    keep the character.  [skip] counts the characters of the current match
    still to drop.  An empty match emits [repl] and keeps the character. *)
Fixpoint replace_from (r : regex) (repl : str) (skip : nat) (s : str) : str :=
  match s with
  | [] =>
      match skip, exec r [] with
      | O, Some _ => repl
      | _, _ => []
      end
  | c :: s' =>
      match skip with
      | S n => replace_from r repl n s'
      | O =>
          match exec r s with
          | Some rest =>
              match (List.length s - List.length rest)%nat with
              | O => repl ++ c :: replace_from r repl 0 s'
              | S n => repl ++ replace_from r repl n s'
              end
          | None => c :: replace_from r repl 0 s'
          end
      end
  end.

Definition replaceAll (r : regex) (repl : str) (s : str) : str :=
  replace_from r repl 0 s.

(** [s.replace(r1, repl1).replace(r2, repl2)...] *)
Definition substitute (subs : list (regex * str)) (s : str) : str :=
  fold_left (fun acc rs => replaceAll (fst rs) (snd rs) acc) subs s.

(** Character tests. *)
Definition exactly (c : string) : char -> bool :=
  fun x => match lit c with
           | [y] => char_eqb x y
           | _ => false
           end.

Definition other_than (c : string) : char -> bool :=
  fun x => negb (exactly c x).

Definition any : char -> bool := fun _ => true.

(** Case folding of the [i] flag for an ASCII pattern character [y]: the
    pattern character and the input character are compared after
    [toUpperCase], and a character outside ASCII is never folded to an ASCII
    one (Canonicalize, ECMAScript 22.2.5.6), so only the two ASCII cases of
    a letter match. *)
Definition upper (c : char) : char :=
  if ((97 <=? c) && (c <=? 122))%N then (c - 32)%N else c.

Definition is_ci (y : char) : char -> bool :=
  fun x => char_eqb (upper x) (upper y).

(** A literal string, case-sensitive and under the [i] flag. *)
Definition chars (s : string) : regex :=
  List.map (fun y => One (char_eqb y)) (lit s).

Definition chars_ci (s : string) : regex :=
  List.map (fun y => One (is_ci y)) (lit s).

End Regex.

Import Regex.

(* ===================================================================== *)
(** ** cleanWithRegex *)
(* ===================================================================== *)

(** /<style[^>]*>[\s\S]*?<\/style>/gi *)
Definition re_style : regex :=
  chars_ci "<style" ++ [Star (other_than ">")] ++ chars_ci ">"
    ++ [LazyStar any] ++ chars_ci "</style>".

(** /<div[^>]*>/g *)
Definition re_div : regex := chars "<div" ++ [Star (other_than ">")] ++ chars ">".

(** /<[^>]+>/g *)
Definition re_tag : regex := chars "<" ++ [Plus (other_than ">")] ++ chars ">".

(** /\[anki:play:[^\]]+\]/g *)
Definition re_play : regex :=
  chars "[anki:play:" ++ [Plus (other_than "]")] ++ chars "]".

Definition re_nbsp : regex := chars "&nbsp;".
Definition re_amp : regex := chars "&amp;".
Definition re_lt : regex := chars "&lt;".
Definition re_gt : regex := chars "&gt;".
Definition re_quot : regex := chars "&quot;".

(** The nine [replace] calls, in the order of the source. *)
Definition substitutions : list (regex * str) :=
  [ (re_style, []);
    (re_div, [NL]);
    (re_tag, lit " ");
    (re_play, []);
    (re_nbsp, lit " ");
    (re_amp, lit "&");
    (re_lt, lit "<");
    (re_gt, lit ">");
    (re_quot, [34%N]) ].

Definition strip_markup (s : str) : str := substitute substitutions s.

(** .split("\n").map(line => line.trim()).filter(line => line.length > 0)
    .join("\n") *)
Definition nonempty (line : str) : bool := (0 <? List.length line)%nat.

Definition reflow (s : str) : str :=
  join [NL] (filter nonempty (List.map trim (split NL s))).

Definition cleanWithRegex (htmlString : str) : str :=
  reflow (strip_markup htmlString).

(* ===================================================================== *)
(** ** JavaScript values *)
(* ===================================================================== *)

Module Value.

(** A Number.  The finite ones are rationals: no operation of the program
    tells a double from the rational it denotes, nor +0 from -0. *)
Inductive number : Type :=
| NaN
| Infinity (negative : bool)
| Finite (q : Q).

Definition of_Z (z : Z) : number := Finite (inject_Z z).
Definition of_nat (n : nat) : number := of_Z (Z.of_nat n).

(** What a tool receives and what the backend answers: the values of
    JSON, and [undefined] for what is absent. *)
Inductive JsVal : Type :=
| JUndefined
| JNull
| JBool (b : bool)
| JNum (n : number)
| JStr (s : str)
| JArr (items : list JsVal)
| JObj (props : list (str * JsVal)).

(** A thrown value: an [Error] (of any class) with its message, or
    something else. *)
Inductive Thrown : Type :=
| ThrownError (message : str)
| ThrownValue (v : JsVal).

(** The two ways the program can raise a [TypeError]. *)
Inductive TypeErrorKind : Type :=
| ReadOfNullish (v : JsVal) (property : str)   (* undefined.p, null.p *)
| NotAFunction (receiver : JsVal) (method : str). (* v.m(..), v.m no function *)

(** What the engine, not the program, decides: the decimal form of a
    Number, the Number a string denotes, the message of a [TypeError]. *)
Class Engine : Type := {
  NumberToString : number -> str;
  StringToNumber : str -> number;
  typeErrorMessage : TypeErrorKind -> str
}.

(** ToIntegerOrInfinity *)
Inductive IntOrInf : Type := NegInf | Int (z : Z) | PosInf.

Definition ToIntegerOrInfinity (n : number) : IntOrInf :=
  match n with
  | NaN => Int 0
  | Infinity true => NegInf
  | Infinity false => PosInf
  | Finite q => Int (Z.quot (Qnum q) (Zpos (Qden q)))
  end.

(** The index an argument of [slice] denotes in an array of [len]
    elements. *)
Definition relative_index (len : Z) (i : IntOrInf) : Z :=
  match i with
  | NegInf => 0
  | Int z => if (z <? 0)%Z then Z.max (len + z) 0 else Z.min z len
  | PosInf => len
  end.

(** [a.slice(start, end)] *)
Definition slice {A : Type} (start end_ : number) (a : list A) : list A :=
  let len := Z.of_nat (List.length a) in
  let k := relative_index len (ToIntegerOrInfinity start) in
  let final := relative_index len (ToIntegerOrInfinity end_) in
  firstn (Z.to_nat (final - k)) (skipn (Z.to_nat k) a).

(** [a.filter((_, index) => keep(index))] *)
Fixpoint filter_index {A : Type} (keep : nat -> bool) (index : nat) (a : list A)
  : list A :=
  match a with
  | [] => []
  | x :: a' =>
      if keep index then x :: filter_index keep (S index) a'
      else filter_index keep (S index) a'
  end.

(** [o.p] on an object of JSON: the first property of that name. *)
Fixpoint lookup (p : str) (props : list (str * JsVal)) : JsVal :=
  match props with
  | [] => JUndefined
  | (k, v) :: props' => if str_eqb k p then v else lookup p props'
  end.

(** [a === b]; two arrays or objects met here are never the same object. *)
Definition number_eqb (a b : number) : bool :=
  match a, b with
  | Finite p, Finite q => Qeq_bool p q
  | Infinity x, Infinity y => Bool.eqb x y
  | _, _ => false
  end.

Definition strict_eqb (a b : JsVal) : bool :=
  match a, b with
  | JUndefined, JUndefined => true
  | JNull, JNull => true
  | JBool x, JBool y => Bool.eqb x y
  | JNum x, JNum y => number_eqb x y
  | JStr x, JStr y => str_eqb x y
  | _, _ => false
  end.

Section WithEngine.

Context {engine : Engine}.

(** ToString, which is also [String(v)] and [`${v}`]; an array is its
    elements joined by a comma, [undefined] and [null] among them empty. *)
Fixpoint ToString (v : JsVal) : str :=
  match v with
  | JUndefined => lit "undefined"
  | JNull => lit "null"
  | JBool true => lit "true"
  | JBool false => lit "false"
  | JNum n => NumberToString n
  | JStr s => s
  | JArr items =>
      join (lit ",")
        (List.map (fun x => match x with
                            | JUndefined | JNull => []
                            | _ => ToString x
                            end) items)
  | JObj _ => lit "[object Object]"
  end.

(** The string an element contributes to [Array.prototype.join]. *)
Definition join_item (x : JsVal) : str :=
  match x with
  | JUndefined | JNull => []
  | _ => ToString x
  end.

(** ToNumber, which is also [Number(v)]; an array or object goes through
    its string. *)
Definition ToNumber (v : JsVal) : number :=
  match v with
  | JUndefined => NaN
  | JNull => of_Z 0
  | JBool true => of_Z 1
  | JBool false => of_Z 0
  | JNum n => n
  | JStr s => StringToNumber s
  | JArr _ | JObj _ => StringToNumber (ToString v)
  end.

Definition TypeError (k : TypeErrorKind) : Thrown :=
  ThrownError (typeErrorMessage k).

(** [v.p] for a data property [p]. *)
Definition get (v : JsVal) (p : str) : Thrown + JsVal :=
  match v with
  | JUndefined | JNull => inl (TypeError (ReadOfNullish v p))
  | JObj props => inr (lookup p props)
  | JArr items =>
      inr (if str_eqb p (lit "length") then JNum (of_nat (List.length items))
           else JUndefined)
  | JStr s =>
      inr (if str_eqb p (lit "length") then JNum (of_nat (List.length s))
           else JUndefined)
  | JBool _ | JNum _ => inr JUndefined
  end.

(** The receiver of a call [v.m(..)] of an array method: the elements of
    an array, a [TypeError] for everything else. *)
Definition array_method (v : JsVal) (m : str) : Thrown + list JsVal :=
  match v with
  | JArr items => inr items
  | JUndefined | JNull => inl (TypeError (ReadOfNullish v m))
  | _ => inl (TypeError (NotAFunction v m))
  end.

(** *** JSON.stringify *)

Definition hex_digit (d : N) : char :=
  if (d <? 10)%N then (48 + d)%N else (87 + d)%N.

(** \uXXXX *)
Definition unicode_escape (c : char) : str :=
  lit "\u" ++ [hex_digit (c / 4096 mod 16); hex_digit (c / 256 mod 16);
               hex_digit (c / 16 mod 16); hex_digit (c mod 16)]%N.

Definition is_high_surrogate (c : char) : bool :=
  ((55296 <=? c) && (c <=? 56319))%N.

Definition is_low_surrogate (c : char) : bool :=
  ((56320 <=? c) && (c <=? 57343))%N.

Definition escape_char (c : char) : str :=
  if (c =? 8)%N then lit "\b"
  else if (c =? 9)%N then lit "\t"
  else if (c =? 10)%N then lit "\n"
  else if (c =? 12)%N then lit "\f"
  else if (c =? 13)%N then lit "\r"
  else if (c =? 34)%N then [92; 34]%N
  else if (c =? 92)%N then lit "\\"
  else if (c <? 32)%N then unicode_escape c
  else [c].

(** The characters between the quotes of QuoteJSONString: a surrogate is
    kept when it is half of a pair and escaped when it stands alone. *)
Fixpoint quote_chars (s : str) : str :=
  match s with
  | [] => []
  | c :: s' =>
      if is_high_surrogate c then
        match s' with
        | d :: s'' =>
            if is_low_surrogate d then c :: d :: quote_chars s''
            else unicode_escape c ++ quote_chars s'
        | [] => unicode_escape c
        end
      else if is_low_surrogate c then unicode_escape c ++ quote_chars s'
      else escape_char c ++ quote_chars s'
  end.

Definition QuoteJSONString (s : str) : str := [34%N] ++ quote_chars s ++ [34%N].

(** The brackets around the serialised members of an array or object. *)
Definition bracket (open close gap stepback indent : str) (partial : list str)
  : str :=
  match partial, gap with
  | [], _ => open ++ close
  | _, [] => open ++ join (lit ",") partial ++ close
  | _, _ =>
      open ++ [NL] ++ indent ++ join (lit "," ++ [NL] ++ indent) partial
        ++ [NL] ++ stepback ++ close
  end.

(** SerializeJSONProperty; [None] is [undefined]. *)
Fixpoint serialize (gap indent : str) (v : JsVal) : option str :=
  match v with
  | JUndefined => None
  | JNull => Some (lit "null")
  | JBool true => Some (lit "true")
  | JBool false => Some (lit "false")
  | JNum (Finite q) => Some (NumberToString (Finite q))
  | JNum _ => Some (lit "null")
  | JStr s => Some (QuoteJSONString s)
  | JArr items =>
      let partial :=
        List.map (fun x => match serialize gap (indent ++ gap) x with
                           | Some t => t
                           | None => lit "null"
                           end) items in
      Some (bracket (lit "[") (lit "]") gap indent (indent ++ gap) partial)
  | JObj props =>
      let partial :=
        flat_map (fun kv =>
                    match kv with
                    | (k, x) =>
                        match serialize gap (indent ++ gap) x with
                        | Some t =>
                            [QuoteJSONString k ++ lit ":"
                               ++ match gap with [] => [] | _ => lit " " end
                               ++ t]
                        | None => []
                        end
                    end) props in
      Some (bracket (lit "{") (lit "}") gap indent (indent ++ gap) partial)
  end.

(** [JSON.stringify(v)] and [JSON.stringify(v, null, spaces)] *)
Definition JSON_stringify (v : JsVal) : option str := serialize [] [] v.

Definition JSON_stringify_indent (v : JsVal) (spaces : nat) : option str :=
  serialize (repeat 32%N (Nat.min spaces 10)) [] v.

End WithEngine.

End Value.

Import Value.

(* ===================================================================== *)
(** ** The backend and the programs that call it *)
(* ===================================================================== *)

(** A record of [cardsInfo]: the object as received, and the values of
    the four properties the program reads, at the types the client declares
    (identifier and due number are integers of the backend). *)
Record CardInfo : Type := {
  received : JsVal;
  info_cardId : Z;
  info_question : str;
  info_answer : str;
  info_due : Z
}.

(** interface Card *)
Record Card : Type := {
  cardId : Z;
  question : str;
  answer : str;
  due : Z
}.

Module Backend.

(** The operations of the AnkiConnect client the program awaits, with the
    type of what each resolves to. *)
Inductive Call : Type -> Type :=
| findCards (query : str) : Call (list Z)
| cardsInfo (cards : JsVal) : Call (list CardInfo)
| answerCards (answers : JsVal) : Call (list bool)
| addNote (note : JsVal) : Call JsVal
| deckNames : Call JsVal
| deckNamesAndIds : Call JsVal
| createDeck (deck : str) : Call JsVal
| deleteDecks (decks : JsVal) (cardsToo : bool) : Call JsVal
| getDeckStats (decks : JsVal) : Call JsVal
| changeDeck (cards : JsVal) (deck : str) : Call JsVal
| suspend (cards : JsVal) : Call JsVal
| unsuspend (cards : JsVal) : Call JsVal
| areSuspended (cards : JsVal) : Call JsVal
| areDue (cards : JsVal) : Call JsVal
| forgetCards (cards : JsVal) : Call JsVal
| getEaseFactors (cards : JsVal) : Call JsVal
| setEaseFactors (cards : JsVal) (easeFactors : JsVal) : Call JsVal.

(** A call whatever its type, for the record of the calls made. *)
Inductive Made : Type :=
| made {X : Type} (c : Call X).

(** An asynchronous computation: it returns, throws, or awaits a call and
    goes on with the outcome of the call. *)
Inductive Prog (A : Type) : Type :=
| Ret (a : A)
| Throw (e : Thrown)
| Await {X : Type} (c : Call X) (k : Thrown + X -> Prog A).

Arguments Ret {A} a.
Arguments Throw {A} e.
Arguments Await {A X} c k.

Fixpoint then_ {A B : Type} (p : Prog A) (f : A -> Prog B) : Prog B :=
  match p with
  | Ret a => f a
  | Throw e => Throw e
  | Await c k => Await c (fun r => then_ (k r) f)
  end.

(** try { p } catch (error) { h error } *)
Fixpoint try_catch {A : Type} (p : Prog A) (h : Thrown -> Prog A) : Prog A :=
  match p with
  | Ret a => Ret a
  | Throw e => h e
  | Await c k => Await c (fun r => try_catch (k r) h)
  end.

#[export] Instance Monad_Prog : Monad Prog :=
  {| ret := @Ret; bind := @then_ |}.

#[export] Instance Exc_Prog : MonadExc Thrown Prog :=
  {| raise := @Throw; catch := @try_catch |}.

(** [await c]: the value the call resolves to; a rejection is thrown. *)
Definition await {X : Type} (c : Call X) : Prog X :=
  Await c (fun r => match r with
                    | inl e => Throw e
                    | inr x => Ret x
                    end).

(** The outcome of an expression that may throw. *)
Definition lift {A : Type} (r : Thrown + A) : Prog A :=
  match r with
  | inl e => Throw e
  | inr a => Ret a
  end.

(** A backend answers a call, knowing the calls made before it. *)
Definition Backend : Type := forall X : Type, list Made -> Call X -> Thrown + X.

(** Running a program against a backend: the calls made, in order, and
    what the program threw or returned. *)
Fixpoint run_from {A : Type} (b : Backend) (before : list Made) (p : Prog A)
  : list Made * (Thrown + A) :=
  match p with
  | Ret a => (before, inr a)
  | Throw e => (before, inl e)
  | Await c k => run_from b (before ++ [made c]) (k (b _ before c))
  end.

Definition run {A : Type} (b : Backend) (p : Prog A) : list Made * (Thrown + A) :=
  run_from b [] p.

End Backend.

Import Backend.

(* ===================================================================== *)
(** ** findCardsAndOrder *)
(* ===================================================================== *)

(** [a.sort(compare)] for a consistent comparator: ECMAScript (2019 and
    later) fixes the result, the stable sort, whatever algorithm finds it.
    Here each element is inserted before the first one of the sorted rest it
    does not compare greater than. *)
Fixpoint insert {A : Type} (compare : A -> A -> Z) (x : A) (sorted : list A)
  : list A :=
  match sorted with
  | [] => [x]
  | y :: rest =>
      if (compare x y <=? 0)%Z then x :: sorted
      else y :: insert compare x rest
  end.

Definition sort {A : Type} (compare : A -> A -> Z) (a : list A) : list A :=
  fold_right (insert compare) [] a.

(** (a, b) => a.due - b.due *)
Definition by_due (a b : Card) : Z := (due a - due b)%Z.

(** card => ({ cardId, question: cleanWithRegex(..), answer: .., due }) *)
Definition to_card (card : CardInfo) : Card :=
  {| cardId := info_cardId card;
     question := cleanWithRegex (info_question card);
     answer := cleanWithRegex (info_answer card);
     due := info_due card |}.

Definition ids_value (ids : list Z) : JsVal :=
  JArr (List.map (fun id => JNum (of_Z id)) ids).

(** The [console.error] line writes to the log and is left out. *)
Definition findCardsAndOrder (query : str) : Prog (list Card) :=
  cardIds <- await (findCards query) ;;
  if (List.length cardIds =? 0)%nat then ret []
  else
    infos <- await (cardsInfo (ids_value cardIds)) ;;
    ret (sort by_due (List.map to_card infos)).

(* ===================================================================== *)
(** ** The handler of CallToolRequest *)
(* ===================================================================== *)

(** { type: "text", text: .. } *)
Record Content : Type := {
  type : str;
  text : option str          (* [None]: undefined *)
}.

Record ToolResult : Type := {
  content : list Content
}.

Definition text_result (t : option str) : ToolResult :=
  {| content := [ {| type := lit "text"; text := t |} ] |}.

(** The argument bag: an object. *)
Definition Args : Type := list (str * JsVal).

Section Tools.

Context {engine : Engine}.

(** new Error(message) *)
Definition Error (message : str) : Thrown := ThrownError message.

(** [v.length] *)
Definition length_of (v : JsVal) : Prog JsVal := lift (get v (lit "length")).

(** [v.join(sep)] *)
Definition join_of (v : JsVal) (sep : str) : Prog str :=
  items <- lift (array_method v (lit "join")) ;;
  ret (join sep (List.map join_item items)).

(** [v.filter((_, index) => keep(index))] *)
Definition filter_of (v : JsVal) (keep : nat -> bool) : Prog (list JsVal) :=
  items <- lift (array_method v (lit "filter")) ;;
  ret (filter_index keep 0 items).

(** [a.map(card => card.cardId)] *)
Fixpoint cardIds_of (a : list JsVal) : Prog (list JsVal) :=
  match a with
  | [] => ret []
  | card :: a' =>
      id <- lift (get card (lit "cardId")) ;;
      ids <- cardIds_of a' ;;
      ret (id :: ids)
  end.

(** [result[index]] as a condition: an index past the end reads
    [undefined]. *)
Definition truthy_at (result : list bool) (index : nat) : bool :=
  nth index result false.

Definition card_value (c : Card) : JsVal :=
  JObj [ (lit "cardId", JNum (of_Z (cardId c)));
         (lit "question", JStr (question c));
         (lit "answer", JStr (answer c));
         (lit "due", JNum (of_Z (due c))) ].

Definition cards_value (cards : list Card) : JsVal :=
  JArr (List.map card_value cards).

Definition update_cards (args : Args) : Prog ToolResult :=
  let answers := lookup (lit "answers") args in
  result <- await (answerCards answers) ;;
  succeeded <- filter_of answers (truthy_at result) ;;
  successfulCards <- cardIds_of succeeded ;;
  failedCards <- filter_of answers (fun index => negb (truthy_at result index)) ;;
  if (0 <? List.length failedCards)%nat then
    failedCardIds <- cardIds_of failedCards ;;
    raise (Error (lit "Failed to update cards with IDs: "
                    ++ join (lit ", ") (List.map join_item failedCardIds)))
  else
    ret (text_result
           (Some (lit "Updated cards "
                    ++ join (lit ", ") (List.map join_item successfulCards)))).

Definition add_card (args : Args) : Prog ToolResult :=
  let front := ToString (lookup (lit "front") args) in
  let back := ToString (lookup (lit "back") args) in
  let note :=
    JObj [ (lit "note",
            JObj [ (lit "deckName", JStr (lit "Default"));
                   (lit "fields", JObj [ (lit "Back", JStr back);
                                         (lit "Front", JStr front) ]);
                   (lit "modelName", JStr (lit "Basic")) ]) ] in
  noteId <- await (addNote note) ;;
  found <- await (findCards (lit "nid:" ++ ToString noteId)) ;;
  let cardId := match found with
                | id :: _ => JNum (of_Z id)
                | [] => JUndefined
                end in
  ret (text_result (Some (lit "Created card with id " ++ ToString cardId))).

Definition get_cards (query : str) (args : Args) : Prog ToolResult :=
  let num := ToNumber (lookup (lit "num") args) in
  cards <- findCardsAndOrder query ;;
  ret (text_result (JSON_stringify (cards_value (slice (of_Z 0) num cards)))).

Definition get_due_cards : Args -> Prog ToolResult := get_cards (lit "is:due").

Definition get_new_cards : Args -> Prog ToolResult := get_cards (lit "is:new").

Definition list_decks (args : Args) : Prog ToolResult :=
  deckNames <- await deckNames ;;
  ret (text_result (JSON_stringify deckNames)).

Definition list_decks_with_ids (args : Args) : Prog ToolResult :=
  decksWithIds <- await deckNamesAndIds ;;
  ret (text_result (JSON_stringify decksWithIds)).

Definition create_deck (args : Args) : Prog ToolResult :=
  let deckName := ToString (lookup (lit "deck") args) in
  result <- await (createDeck deckName) ;;
  ret (text_result
         (Some (lit "Created deck " ++ [34%N] ++ deckName ++ [34%N]
                  ++ lit " with ID: " ++ ToString result))).

Definition delete_decks (args : Args) : Prog ToolResult :=
  let deckNames := lookup (lit "decks") args in
  _ <- await (deleteDecks deckNames true) ;;
  names <- join_of deckNames (lit ", ") ;;
  ret (text_result (Some (lit "Deleted decks: " ++ names))).

Definition get_deck_stats (args : Args) : Prog ToolResult :=
  let deckNames := lookup (lit "decks") args in
  stats <- await (getDeckStats deckNames) ;;
  ret (text_result (JSON_stringify_indent stats 2)).

Definition move_cards_to_deck (args : Args) : Prog ToolResult :=
  let cardIds := lookup (lit "cards") args in
  let targetDeck := ToString (lookup (lit "deck") args) in
  _ <- await (changeDeck cardIds targetDeck) ;;
  n <- length_of cardIds ;;
  ret (text_result
         (Some (lit "Moved " ++ ToString n ++ lit " cards to deck "
                  ++ [34%N] ++ targetDeck ++ [34%N]))).

Definition get_cards_info (args : Args) : Prog ToolResult :=
  let cardIds := lookup (lit "cards") args in
  cardsInfo <- await (cardsInfo cardIds) ;;
  ret (text_result
         (JSON_stringify_indent (JArr (List.map received cardsInfo)) 2)).

(** The three tools that act on cards and report their number and list. *)
Definition on_cards (call : JsVal -> Call JsVal) (before after : str) (args : Args)
  : Prog ToolResult :=
  let cardIds := lookup (lit "cards") args in
  _ <- await (call cardIds) ;;
  n <- length_of cardIds ;;
  ids <- join_of cardIds (lit ", ") ;;
  ret (text_result (Some (before ++ ToString n ++ after ++ ids))).

Definition suspend_cards : Args -> Prog ToolResult :=
  on_cards suspend (lit "Suspended ") (lit " cards: ").

Definition unsuspend_cards : Args -> Prog ToolResult :=
  on_cards unsuspend (lit "Unsuspended ") (lit " cards: ").

Definition forget_cards : Args -> Prog ToolResult :=
  on_cards forgetCards (lit "Reset ") (lit " cards to new status: ").

(** The three tools that ask about cards and return the answer as JSON. *)
Definition ask_cards (call : JsVal -> Call JsVal) (args : Args) : Prog ToolResult :=
  let cardIds := lookup (lit "cards") args in
  answer <- await (call cardIds) ;;
  ret (text_result (JSON_stringify answer)).

Definition check_suspended_status : Args -> Prog ToolResult := ask_cards areSuspended.

Definition check_due_status : Args -> Prog ToolResult := ask_cards areDue.

Definition get_ease_factors : Args -> Prog ToolResult := ask_cards getEaseFactors.

Definition set_ease_factors (args : Args) : Prog ToolResult :=
  let cardIds := lookup (lit "cards") args in
  let easeFactors := lookup (lit "easeFactors") args in
  n <- length_of cardIds ;;
  m <- length_of easeFactors ;;
  if negb (strict_eqb n m) then
    raise (Error (lit "Cards and easeFactors arrays must have the same length"))
  else
    _ <- await (setEaseFactors cardIds easeFactors) ;;
    n' <- length_of cardIds ;;
    ret (text_result
           (Some (lit "Set ease factors for " ++ ToString n' ++ lit " cards"))).

Definition get_all_cards_in_deck (args : Args) : Prog ToolResult :=
  let deckName := ToString (lookup (lit "deck") args) in
  let query := lit "deck:" ++ [34%N] ++ deckName ++ [34%N] in
  cards <- findCardsAndOrder query ;;
  ret (text_result (JSON_stringify (cards_value cards))).

(** The cases of [switch (name)], in the order of the source. *)
Definition cases : list (str * (Args -> Prog ToolResult)) :=
  [ (lit "update_cards", update_cards);
    (lit "add_card", add_card);
    (lit "get_due_cards", get_due_cards);
    (lit "get_new_cards", get_new_cards);
    (lit "list_decks", list_decks);
    (lit "list_decks_with_ids", list_decks_with_ids);
    (lit "create_deck", create_deck);
    (lit "delete_decks", delete_decks);
    (lit "get_deck_stats", get_deck_stats);
    (lit "move_cards_to_deck", move_cards_to_deck);
    (lit "get_cards_info", get_cards_info);
    (lit "suspend_cards", suspend_cards);
    (lit "unsuspend_cards", unsuspend_cards);
    (lit "check_suspended_status", check_suspended_status);
    (lit "check_due_status", check_due_status);
    (lit "forget_cards", forget_cards);
    (lit "get_ease_factors", get_ease_factors);
    (lit "set_ease_factors", set_ease_factors);
    (lit "get_all_cards_in_deck", get_all_cards_in_deck) ].

(** The body of [try]: the case of [name], or the default. *)
Definition dispatch (name : str) (args : Args) : Prog ToolResult :=
  match find (fun c => str_eqb name (fst c)) cases with
  | Some (_, body) => body args
  | None => raise (Error (lit "Unknown tool: " ++ name))
  end.

(** error instanceof Error ? error.message : String(error) *)
Definition message_of (error : Thrown) : str :=
  match error with
  | ThrownError message => message
  | ThrownValue v => ToString v
  end.

(** `Error in tool ${name}: ${..}` *)
Definition wrapped (name : str) (error : Thrown) : Thrown :=
  Error (lit "Error in tool " ++ name ++ lit ": " ++ message_of error).

(** The handler; [args] is [None] when the request has no arguments. *)
Definition callTool (name : str) (args : option Args) : Prog ToolResult :=
  match args with
  | None => raise (Error (lit "No arguments provided for tool: " ++ name))
  | Some args =>
      catch (dispatch name args) (fun error => raise (wrapped name error))
  end.

End Tools.

(* ===================================================================== *)
(** ** The handler of ListToolsRequest *)
(* ===================================================================== *)

Module Catalog.

(** An input schema, as far as the catalogue uses JSON Schema: the type,
    the description where there is one, the items of an array, the
    properties of an object and the names it requires. *)
Inductive Schema : Type :=
| number_ (description : option str)
| string_ (description : option str)
| array_ (items : Schema) (description : option str)
| object_ (properties : list (str * Schema)) (required : option (list str)).

Record Tool : Type := {
  name : str;
  description : str;
  inputSchema : Schema
}.

Definition described (d : string) : option str := Some (lit d).

(** type: "array", items: { type: "number" }, description: d *)
Definition card_ids (d : string) : Schema := array_ (number_ None) (described d).

(** type: "array", items: { type: "string" }, description: d *)
Definition deck_names (d : string) : Schema := array_ (string_ None) (described d).

Definition add_card_description : str :=
  lit "Create a new flashcard in Anki for the user. Must use HTML formatting only. IMPORTANT FORMATTING RULES:"
    ++ [NL] ++ lit "1. Must use HTML tags for ALL formatting - NO markdown"
    ++ [NL] ++ lit "2. Use <br> for ALL line breaks"
    ++ [NL] ++ lit "3. For code blocks, use <pre> with inline CSS styling"
    ++ [NL] ++ lit "4. Example formatting:"
    ++ [NL] ++ lit "   - Line breaks: <br>"
    ++ [NL] ++ lit "   - Code: <pre style=" ++ [34%N]
    ++ lit "background-color: transparent; padding: 10px; border-radius: 5px;"
    ++ [34%N] ++ lit ">"
    ++ [NL] ++ lit "   - Lists: <ol> and <li> tags"
    ++ [NL] ++ lit "   - Bold: <strong>"
    ++ [NL] ++ lit "   - Italic: <em>".

(** The tools, in the order of the source. *)
Definition tools : list Tool :=
  [ {| name := lit "update_cards";
       description := lit "After the user answers cards you've quizzed them on, use this tool to mark them answered and update their ease";
       inputSchema :=
         object_
           [ (lit "answers",
              array_
                (object_
                   [ (lit "cardId", number_ (described "Id of the card to answer"));
                     (lit "ease",
                      number_ (described "Ease of the card between 1 (Again) and 4 (Easy)")) ]
                   None)
                None) ]
           None |};
    {| name := lit "add_card";
       description := add_card_description;
       inputSchema :=
         object_
           [ (lit "front",
              string_ (described "The front of the card. Must use HTML formatting only."));
             (lit "back",
              string_ (described "The back of the card. Must use HTML formatting only.")) ]
           (Some [lit "front"; lit "back"]) |};
    {| name := lit "get_due_cards";
       description := lit "Returns a given number (num) of cards due for review.";
       inputSchema :=
         object_ [ (lit "num", number_ (described "Number of due cards to get")) ]
                 (Some [lit "num"]) |};
    {| name := lit "get_new_cards";
       description := lit "Returns a given number (num) of new and unseen cards.";
       inputSchema :=
         object_ [ (lit "num", number_ (described "Number of new cards to get")) ]
                 (Some [lit "num"]) |};
    {| name := lit "list_decks";
       description := lit "Returns a list of all deck names in Anki.";
       inputSchema := object_ [] None |};
    {| name := lit "list_decks_with_ids";
       description := lit "Returns a dictionary of deck names and their corresponding IDs.";
       inputSchema := object_ [] None |};
    {| name := lit "create_deck";
       description := lit "Creates a new empty deck in Anki.";
       inputSchema :=
         object_ [ (lit "deck", string_ (described "Name of the new deck to create")) ]
                 (Some [lit "deck"]) |};
    {| name := lit "delete_decks";
       description := lit "Deletes specified decks and all their cards. This action cannot be undone.";
       inputSchema :=
         object_ [ (lit "decks", deck_names "Array of deck names to delete") ]
                 (Some [lit "decks"]) |};
    {| name := lit "get_deck_stats";
       description := lit "Gets statistics for specified decks including card counts and review information.";
       inputSchema :=
         object_ [ (lit "decks", deck_names "Array of deck names to get stats for") ]
                 (Some [lit "decks"]) |};
    {| name := lit "move_cards_to_deck";
       description := lit "Moves specified cards to a different deck.";
       inputSchema :=
         object_ [ (lit "cards", card_ids "Array of card IDs to move");
                   (lit "deck", string_ (described "Name of the destination deck")) ]
                 (Some [lit "cards"; lit "deck"]) |};
    {| name := lit "get_cards_info";
       description := lit "Retrieves detailed information about specific cards including question, answer, due date, and more.";
       inputSchema :=
         object_ [ (lit "cards", card_ids "Array of card IDs to get information for") ]
                 (Some [lit "cards"]) |};
    {| name := lit "suspend_cards";
       description := lit "Suspends cards to prevent them from appearing in reviews.";
       inputSchema :=
         object_ [ (lit "cards", card_ids "Array of card IDs to suspend") ]
                 (Some [lit "cards"]) |};
    {| name := lit "unsuspend_cards";
       description := lit "Unsuspends cards to allow them to appear in reviews again.";
       inputSchema :=
         object_ [ (lit "cards", card_ids "Array of card IDs to unsuspend") ]
                 (Some [lit "cards"]) |};
    {| name := lit "check_suspended_status";
       description := lit "Checks if specified cards are currently suspended.";
       inputSchema :=
         object_ [ (lit "cards", card_ids "Array of card IDs to check suspension status for") ]
                 (Some [lit "cards"]) |};
    {| name := lit "check_due_status";
       description := lit "Checks if specified cards are currently due for review.";
       inputSchema :=
         object_ [ (lit "cards", card_ids "Array of card IDs to check due status for") ]
                 (Some [lit "cards"]) |};
    {| name := lit "forget_cards";
       description := lit "Resets cards to 'new' status, removing their review history.";
       inputSchema :=
         object_ [ (lit "cards", card_ids "Array of card IDs to reset to new status") ]
                 (Some [lit "cards"]) |};
    {| name := lit "get_ease_factors";
       description := lit "Retrieves ease factors for specified cards.";
       inputSchema :=
         object_ [ (lit "cards", card_ids "Array of card IDs to get ease factors for") ]
                 (Some [lit "cards"]) |};
    {| name := lit "set_ease_factors";
       description := lit "Sets ease factors for specified cards.";
       inputSchema :=
         object_ [ (lit "cards", card_ids "Array of card IDs to set ease factors for");
                   (lit "easeFactors",
                    card_ids "Array of ease factor values (must match cards array length)") ]
                 (Some [lit "cards"; lit "easeFactors"]) |};
    {| name := lit "get_all_cards_in_deck";
       description := lit "Returns all cards in a specified deck regardless of their review status (new, due, suspended, etc.).";
       inputSchema :=
         object_ [ (lit "deck", string_ (described "Name of the deck to get all cards from")) ]
                 (Some [lit "deck"]) |} ].

(** The names of the arguments a tool declares. *)
Definition declared (t : Tool) : list str :=
  match inputSchema t with
  | object_ properties _ => List.map fst properties
  | _ => []
  end.

End Catalog.

(* ===================================================================== *)
(** ** The handlers of ListResourcesRequest and ReadResourceRequest *)
(* ===================================================================== *)

(** What the platform, not the program, decides about a URI: the
    [pathname] of [new URL(uri)] and [decodeURIComponent]; both may
    throw. *)
Class Web : Type := {
  URL_pathname : str -> Thrown + str;
  decodeURIComponent : str -> Thrown + str
}.

Module Listing.

Record Descriptor : Type := {
  uri : str;
  mimeType : str;
  name : str;
  description : str
}.

(** The handler of ListResourcesRequest returns these. *)
Definition resources : list Descriptor :=
  [ {| uri := lit "anki://search/deck:current";
       mimeType := lit "application/json";
       name := lit "Current Deck";
       description := lit "Current Anki deck" |};
    {| uri := lit "anki://search/is:due";
       mimeType := lit "application/json";
       name := lit "Due cards";
       description := lit "Cards in review and learning waiting to be studied" |};
    {| uri := lit "anki://search/is:new";
       mimeType := lit "application/json";
       name := lit "New cards";
       description := lit "All unseen cards" |} ].

End Listing.

Module Resource.

(** { uri, mimeType, text } *)
Record Contents : Type := {
  uri : str;
  mimeType : str;
  text : option str          (* [None]: undefined *)
}.

Record ReadResult : Type := {
  contents : list Contents
}.

(** [a.pop()], for its value: the last element, [None] (undefined) when
    there is none. *)
Fixpoint pop (a : list str) : option str :=
  match a with
  | [] => None
  | [x] => Some x
  | _ :: a' => pop a'
  end.

Section Read.

Context {engine : Engine} {web : Web}.

(** The handler of ReadResourceRequest; [!query] holds for [undefined]
    and for the empty string. *)
Definition readResource (requested : str) : Prog ReadResult :=
  pathname <- lift (URL_pathname requested) ;;
  match pop (split 47%N pathname) with
  | None | Some [] => raise (ThrownError (lit "Invalid resource URI"))
  | Some query =>
      query <- lift (decodeURIComponent query) ;;
      cards <- findCardsAndOrder query ;;
      ret {| contents :=
               [ {| uri := requested;
                    mimeType := lit "application/json";
                    text := JSON_stringify (cards_value cards) |} ] |}
  end.

End Read.

End Resource.

(* ===================================================================== *)
(** ** The words of the statements *)
(* ===================================================================== *)

(** The lines [reflow] keeps. *)
Definition kept_lines (s : str) : list str :=
  filter nonempty (List.map trim (split NL s)).

(** The least number of characters a match of [r] consumes. *)
Definition atom_min (a : atom) : nat :=
  match a with
  | One _ | Plus _ => 1
  | Star _ | LazyStar _ => 0
  end.

Definition min_length (r : regex) : nat := list_sum (List.map atom_min r).

(** [k] leaves at least [m] characters less than it is given. *)
Definition consumes (m : nat) (k : str -> option str) : Prop :=
  forall s rest, k s = Some rest -> List.length rest + m <= List.length s.

(** A substitution shrinks when every match is longer than what replaces
    it. *)
Definition shrinking (rs : regex * str) : Prop :=
  List.length (snd rs) < min_length (fst rs).

(** No character that starts a pattern of [cleanWithRegex]: no [<], no
    [[], no [&]. *)
Definition plain (c : char) : bool :=
  negb ((c =? 60) || (c =? 91) || (c =? 38))%N.

Definition markup_free (s : str) : bool := forallb plain s.

(** Every pattern starts with one character that is not plain. *)
Definition guarded (rs : regex * str) : Prop :=
  exists p r, fst rs = One p :: r /\ forall c, plain c = true -> p c = false.

Definition due_le (a b : Card) : Prop := (due a <= due b)%Z.

Definition has_due (d : Z) (c : Card) : bool := (due c =? d)%Z.



(* ===================================================================== *)
(** ** An engine and two backends for the examples *)
(* ===================================================================== *)

Module Examples.

Definition decimal (z : Z) : str :=
  lit (NilZero.string_of_int (Z.to_int z)).

Definition is_digit (c : char) : bool := ((48 <=? c) && (c <=? 57))%N.

Definition digits_value (s : str) : Z :=
  fold_left (fun acc c => (10 * acc + Z.of_N (c - 48))%Z) s 0%Z.

(** An engine for the examples, right on what they ask of it: whole
    numbers are printed in decimal; the empty string and strings of digits
    denote whole numbers, and the other strings the examples pass (words)
    denote NaN; a [TypeError] names the value read or the method called. *)
Definition simple : Engine := {|
  NumberToString n :=
    match n with
    | NaN => lit "NaN"
    | Infinity false => lit "Infinity"
    | Infinity true => lit "-Infinity"
    | Finite q => decimal (Z.quot (Qnum q) (Zpos (Qden q)))
    end;
  StringToNumber s :=
    if forallb is_digit s then of_Z (digits_value s) else NaN;
  typeErrorMessage k :=
    match k with
    | ReadOfNullish v p =>
        lit "Cannot read properties of "
          ++ match v with JNull => lit "null" | _ => lit "undefined" end
          ++ lit " (reading '" ++ p ++ lit "')"
    | NotAFunction _ m => m ++ lit " is not a function"
    end
|}.

Definition info (id : Z) (q a : string) (d : Z) : CardInfo :=
  {| received := JObj [ (lit "cardId", JNum (of_Z id));
                        (lit "question", JStr (lit q));
                        (lit "answer", JStr (lit a));
                        (lit "due", JNum (of_Z d)) ];
     info_cardId := id;
     info_question := lit q;
     info_answer := lit a;
     info_due := d |}.

(** A collection of three cards, none of them new; of three answers the
    second one is refused. *)
Definition deck : Backend :=
  fun X before c =>
    match c in Call X return Thrown + X with
    | findCards query =>
        inr (if str_eqb query (lit "is:new") then [] else [11; 12; 13]%Z)
    | cardsInfo _ =>
        inr [ info 11 "<b>one</b>" "1" 7; info 12 "two" "2" 3;
              info 13 "three" "3" 7 ]
    | answerCards _ => inr [true; false; true]
    | _ => inr JNull
    end.

(** A backend that cannot be reached. *)
Definition offline : Backend :=
  fun X before c => inl (ThrownError (lit "fetch failed")).

Definition answer (id ease : Z) : list (str * JsVal) :=
  [ (lit "cardId", JNum (of_Z id)); (lit "ease", JNum (of_Z ease)) ].

End Examples.

(* ===================================================================== *)
(** ** More words, for the statements about the handlers *)
(* ===================================================================== *)

(** A value has the shape a schema describes: the type, for an array the
    shape of every item, for an object the shape of every declared property
    that is there and the presence of every required one. *)
Fixpoint conforms (s : Catalog.Schema) (v : JsVal) : bool :=
  match s, v with
  | Catalog.number_ _, JNum _ => true
  | Catalog.string_ _, JStr _ => true
  | Catalog.array_ items _, JArr values => forallb (conforms items) values
  | Catalog.object_ properties required, JObj fields =>
      forallb (fun ps =>
                 match ps with
                 | (p, schema) =>
                     match lookup p fields with
                     | JUndefined => true
                     | value => conforms schema value
                     end
                 end) properties
      && forallb (fun p => match lookup p fields with
                           | JUndefined => false
                           | _ => true
                           end)
                 match required with
                 | Some names => names
                 | None => []
                 end
  | _, _ => false
  end.

(** The arguments fit the schema of the tool, and every argument the tool
    declares is there. *)
Definition fits (t : Catalog.Tool) (args : Args) : Prop :=
  conforms (Catalog.inputSchema t) (JObj args) = true
  /\ forall p, In p (Catalog.declared t) -> lookup p args <> JUndefined.

(** The backend rejected some call with [e]. *)
Definition backend_threw (b : Backend) (e : Thrown) : Prop :=
  exists (X : Type) (c : Call X) (before : list Made), b X before c = inl e.

(** The two errors the cases of the switch throw themselves. *)
Definition deliberate (e : Thrown) : Prop :=
  e = Error (lit "Cards and easeFactors arrays must have the same length")
  \/ exists ids : str,
       e = Error (lit "Failed to update cards with IDs: " ++ ids).

(** A program that makes at most [n] calls, passes on what a call is
    rejected with, throws of its own only what [P] allows and returns only
    what [Q] allows. *)
Fixpoint behaves {A : Type} (P : Thrown -> Prop) (Q : A -> Prop) (n : nat)
         (p : Prog A) {struct p} : Prop :=
  match p with
  | Ret a => Q a
  | Throw e => P e
  | Await c k =>
      match n with
      | O => False
      | S m =>
          (forall e, k (inl e) = Throw e)
          /\ forall x, behaves P Q m (k (inr x))
      end
  end.


(** The three tools that act on cards: name, backend operation, and the
    words of the reply before the number of cards and after it. *)
Definition card_actions : list (str * (JsVal -> Call JsVal) * str * str) :=
  [ (lit "suspend_cards", suspend, lit "Suspended ", lit " cards: ");
    (lit "unsuspend_cards", unsuspend, lit "Unsuspended ", lit " cards: ");
    (lit "forget_cards", forgetCards, lit "Reset ", lit " cards to new status: ") ].

(** The two tools that return the first cards of a query: name and
    filter expression. *)
Definition card_lists : list (str * str) :=
  [ (lit "get_due_cards", lit "is:due"); (lit "get_new_cards", lit "is:new") ].

(** A result of one content block, of type text. *)
Definition single_text (r : ToolResult) : Prop := exists t, r = text_result t.


Module MoreExamples.

(** A platform for the examples, right on what they ask of it: the
    pathname of a URI that starts with anki://search is what follows that
    start, and a string without a percent sign decodes to itself. *)
Fixpoint after_prefix (prefix s : str) : option str :=
  match prefix, s with
  | [], _ => Some s
  | c :: prefix', d :: s' =>
      if char_eqb c d then after_prefix prefix' s' else None
  | _ :: _, [] => None
  end.

Definition platform : Web := {|
  URL_pathname requested :=
    match after_prefix (lit "anki://search") requested with
    | Some path => inr path
    | None => inl (ThrownError (lit "Invalid URL"))
    end;
  decodeURIComponent s :=
    if existsb (char_eqb 37%N) s
    then inl (ThrownError (lit "URI malformed"))
    else inr s
|}.

(** A backend that takes a note and then finds no card for it. *)
Definition forgetful : Backend :=
  fun X before c =>
    match c in Call X return Thrown + X with
    | findCards _ => inr []
    | cardsInfo _ => inr []
    | answerCards _ => inr []
    | addNote _ => inr (JNum (of_Z 1700000000000))
    | _ => inr (JBool false)
    end.

(** The entry of set_ease_factors in the catalogue. *)
Definition ease_tool : Catalog.Tool :=
  {| Catalog.name := lit "set_ease_factors";
     Catalog.description := lit "Sets ease factors for specified cards.";
     Catalog.inputSchema :=
       Catalog.object_
         [ (lit "cards",
            Catalog.card_ids "Array of card IDs to set ease factors for");
           (lit "easeFactors",
            Catalog.card_ids
              "Array of ease factor values (must match cards array length)") ]
         (Some [lit "cards"; lit "easeFactors"]) |}.

(** A backend whose three cards come in order of due number. *)
Definition ordered : Backend :=
  fun X before c =>
    match c in Call X return Thrown + X with
    | findCards _ => inr [21; 22; 23]%Z
    | cardsInfo _ =>
        inr [ Examples.info 21 "a" "1" 2; Examples.info 22 "b" "2" 2;
              Examples.info 23 "c" "3" 9 ]
    | answerCards _ => inr [true; true; true]
    | _ => inr (JBool true)
    end.

End MoreExamples.

(** Some runs of the normaliser. *)
Example clean_style :
  cleanWithRegex (lit "<style>.a{color:red}</style>Hi") = lit "Hi".
Proof. vm_compute. reflexivity. Qed.

Example clean_entity : cleanWithRegex (lit "&lt;b&gt;x") = lit "<b>x".
Proof. vm_compute. reflexivity. Qed.

Example clean_tag : cleanWithRegex (lit "<b>x") = lit "x".
Proof. vm_compute. reflexivity. Qed.

Example clean_mixed :
  cleanWithRegex
    (lit "<STYLE a>x</style></Style>y <DIV>z [anki:play:q:0] &amp;nbsp; ")
  = lit "y  z  &nbsp;".
Proof. vm_compute. reflexivity. Qed.

(* ===================================================================== *)
(** ** Lines: split, trim, join *)
(* ===================================================================== *)

Module Lines.

Lemma split_nonempty (sep : char) (s : str) : split sep s <> [].
Proof.
  destruct s as [|c s]; simpl; [discriminate|].
  destruct (char_eqb c sep); [discriminate|].
  destruct (split sep s); discriminate.
Qed.

Lemma char_eqb_eq (a b : char) : char_eqb a b = true <-> a = b.
Proof. apply N.eqb_eq. Qed.

(** No segment of a split holds the separator. *)
Lemma split_free (sep : char) (s seg : str) :
  In seg (split sep s) -> ~ In sep seg.
Proof.
  revert seg. induction s as [|c s IH]; simpl; intros seg Hin.
  - destruct Hin as [<-|[]]. intros [].
  - destruct (char_eqb c sep) eqn:E.
    + destruct Hin as [<-|Hin]; [intros []|auto].
    + destruct (split sep s) as [|seg0 segs] eqn:Es.
      * destruct Hin as [<-|[]]. intros [->|[]].
        rewrite (proj2 (char_eqb_eq sep sep) eq_refl) in E. discriminate.
      * destruct Hin as [<-|Hin].
        -- intros [->|Hc].
           ++ rewrite (proj2 (char_eqb_eq sep sep) eq_refl) in E. discriminate.
           ++ exact (IH seg0 (or_introl eq_refl) Hc).
        -- apply IH. right. exact Hin.
Qed.

(** A string free of the separator is its own single segment. *)
Lemma split_one (sep : char) (s : str) : ~ In sep s -> split sep s = [s].
Proof.
  induction s as [|c s IH]; simpl; intros Hfree; [reflexivity|].
  destruct (char_eqb c sep) eqn:E.
  - apply char_eqb_eq in E. subst. exfalso. apply Hfree. now left.
  - rewrite IH; [reflexivity|]. intros H. apply Hfree. now right.
Qed.

Lemma split_app_sep (sep : char) (a b : str) :
  ~ In sep a -> split sep (a ++ sep :: b) = a :: split sep b.
Proof.
  induction a as [|c a IH]; simpl; intros Hfree.
  - now rewrite (proj2 (char_eqb_eq sep sep) eq_refl).
  - destruct (char_eqb c sep) eqn:E.
    + apply char_eqb_eq in E. subst. exfalso. apply Hfree. now left.
    + rewrite IH; [reflexivity|]. intros H. apply Hfree. now right.
Qed.

(** Splitting what was joined gives the lines back, when there is a line
    and no line holds the separator. *)
Lemma split_join (sep : char) (lines : list str) :
  lines <> [] ->
  (forall l, In l lines -> ~ In sep l) ->
  split sep (join [sep] lines) = lines.
Proof.
  induction lines as [|x lines IH]; intros Hne Hfree; [congruence|].
  destruct lines as [|y lines].
  - simpl. apply split_one. apply Hfree. now left.
  - change (join [sep] (x :: y :: lines)) with (x ++ sep :: join [sep] (y :: lines)).
    rewrite split_app_sep by (apply Hfree; now left).
    rewrite IH; [reflexivity|discriminate|].
    intros l Hl. apply Hfree. now right.
Qed.

Lemma split_snoc_sep (sep : char) (s : str) :
  split sep (s ++ [sep]) = split sep s ++ [[]].
Proof.
  induction s as [|c s IH]; simpl.
  - now rewrite (proj2 (char_eqb_eq sep sep) eq_refl).
  - destruct (char_eqb c sep); rewrite IH; [reflexivity|].
    destruct (split sep s) eqn:E; [now apply split_nonempty in E|reflexivity].
Qed.

Lemma trimStart_incl (s : str) (c : char) : In c (trimStart s) -> In c s.
Proof.
  induction s as [|d s IH]; simpl; [auto|].
  destruct (is_space d); [auto|]. simpl. auto.
Qed.

Lemma trimEnd_incl (s : str) (c : char) : In c (trimEnd s) -> In c s.
Proof.
  induction s as [|d s IH]; simpl; [auto|].
  destruct (trimEnd s) as [|e t].
  - destruct (is_space d); simpl; intuition.
  - intros [->|H]; [now left|right; now apply IH].
Qed.

Lemma trim_incl (s : str) (c : char) : In c (trim s) -> In c s.
Proof. intros H. now apply trimStart_incl, trimEnd_incl. Qed.

Lemma trimEnd_idem (s : str) : trimEnd (trimEnd s) = trimEnd s.
Proof.
  induction s as [|c s IH]; simpl; [reflexivity|].
  destruct (trimEnd s) as [|e t] eqn:E.
  - destruct (is_space c) eqn:Ec; simpl; [reflexivity|now rewrite Ec].
  - simpl. simpl in IH. rewrite IH. reflexivity.
Qed.

(** The start of a string survives [trimEnd] when it is no space. *)
Lemma trimEnd_head (c : char) (s : str) :
  is_space c = false -> exists t, trimEnd (c :: s) = c :: t.
Proof.
  intros Hc. simpl. destruct (trimEnd s) as [|e t].
  - rewrite Hc. now exists [].
  - now exists (e :: t).
Qed.

Lemma trimStart_head (s : str) :
  trimStart s = [] \/ exists c t, trimStart s = c :: t /\ is_space c = false.
Proof.
  induction s as [|c s IH]; simpl; [now left|].
  destruct (is_space c) eqn:E; [exact IH|].
  right. now exists c, s.
Qed.

Lemma trim_idem (s : str) : trim (trim s) = trim s.
Proof.
  unfold trim. destruct (trimStart_head s) as [->|(c & t & -> & Hc)].
  - reflexivity.
  - destruct (trimEnd_head c t Hc) as [u Hu]. rewrite Hu.
    simpl trimStart. rewrite Hc. rewrite <- Hu. apply trimEnd_idem.
Qed.

Lemma kept_line (s l : str) :
  In l (kept_lines s) -> l <> [] /\ trim l = l /\ ~ In NL l.
Proof.
  unfold kept_lines. rewrite filter_In, in_map_iff.
  intros [(seg & <- & Hseg) Hne]. repeat split.
  - intros E. rewrite E in Hne. discriminate.
  - apply trim_idem.
  - intros H. apply trim_incl in H. exact (split_free _ _ _ Hseg H).
Qed.

Lemma kept_lines_fixed (lines : list str) :
  (forall l, In l lines -> l <> [] /\ trim l = l /\ ~ In NL l) ->
  filter nonempty (List.map trim lines) = lines.
Proof.
  induction lines as [|x lines IH]; intros H; [reflexivity|].
  simpl. destruct (H x (or_introl eq_refl)) as (Hne & Ht & _).
  rewrite Ht. destruct x as [|c x]; [congruence|]. simpl.
  f_equal. apply IH. intros l Hl. apply H. now right.
Qed.

Lemma reflow_empty (s : str) : kept_lines s = [] -> reflow s = [].
Proof. unfold reflow, kept_lines. now intros ->. Qed.

Lemma split_reflow (s : str) :
  kept_lines s <> [] -> split NL (reflow s) = kept_lines s.
Proof.
  intros Hne. unfold reflow. fold (kept_lines s).
  apply split_join; [exact Hne|]. intros l Hl. now apply kept_line in Hl.
Qed.

(** Re-flowing twice is re-flowing once. *)
Lemma reflow_idem (s : str) : reflow (reflow s) = reflow s.
Proof.
  destruct (kept_lines s) as [|x lines] eqn:E.
  - rewrite (reflow_empty _ E). reflexivity.
  - assert (Hne : kept_lines s <> []) by (rewrite E; discriminate).
    unfold reflow at 1. rewrite (split_reflow s Hne).
    rewrite kept_lines_fixed; [reflexivity|]. apply kept_line.
Qed.

End Lines.

(* ===================================================================== *)
(** ** What a match consumes, what a replacement leaves *)
(* ===================================================================== *)

Module RegexFacts.

Lemma greedy_consumes (p : char -> bool) (m : nat) (k : str -> option str) :
  consumes m k -> consumes m (greedy p k).
Proof.
  intros Hk s. induction s as [|c s IH]; simpl; intros rest H.
  - now apply Hk in H.
  - destruct (p c).
    + destruct (greedy p k s) as [r|] eqn:E.
      * injection H as <-. specialize (IH r eq_refl). lia.
      * apply Hk in H. exact H.
    + apply Hk in H. exact H.
Qed.

Lemma lazy_star_consumes (p : char -> bool) (m : nat) (k : str -> option str) :
  consumes m k -> consumes m (lazy_star p k).
Proof.
  intros Hk s. induction s as [|c s IH]; simpl; intros rest H.
  - destruct (k []) as [r|] eqn:E; [|discriminate].
    injection H as <-. now apply Hk in E.
  - destruct (k (c :: s)) as [r|] eqn:E.
    + injection H as <-. now apply Hk in E.
    + destruct (p c); [|discriminate]. specialize (IH rest H). lia.
Qed.

Lemma exec_consumes (r : regex) : consumes (min_length r) (exec r).
Proof.
  induction r as [|a r IH]; unfold min_length; simpl.
  - intros s rest H. injection H as <-. lia.
  - fold (min_length r). destruct a as [p|p|p|p]; simpl.
    + intros [|c s] rest H; [discriminate|].
      destruct (p c); [|discriminate]. apply IH in H. simpl. lia.
    + apply greedy_consumes, IH.
    + intros [|c s] rest H; [discriminate|].
      destruct (p c); [|discriminate].
      apply (greedy_consumes p _ _ IH) in H. simpl. lia.
    + apply lazy_star_consumes, IH.
Qed.

Lemma replace_from_scan (r : regex) (repl : str) (c : char) (s : str) :
  replace_from r repl 0 (c :: s) =
  match exec r (c :: s) with
  | Some rest =>
      match List.length (c :: s) - List.length rest with
      | O => repl ++ c :: replace_from r repl 0 s
      | S n => repl ++ replace_from r repl n s
      end
  | None => c :: replace_from r repl 0 s
  end.
Proof. reflexivity. Qed.

Section Shrinking.

Variables (r : regex) (repl : str).
Hypothesis Hshrink : shrinking (r, repl).

Lemma exec_nil : exec r [] = None.
Proof.
  destruct (exec r []) as [rest|] eqn:E; [|reflexivity].
  apply exec_consumes in E. unfold shrinking in Hshrink. simpl in *. lia.
Qed.

Lemma replace_from_length (s : str) (skip : nat) :
  skip <= List.length s ->
  List.length (replace_from r repl skip s) + skip <= List.length s.
Proof.
  unfold shrinking in Hshrink. simpl in Hshrink.
  revert skip. induction s as [|c s IH]; intros skip Hskip.
  - simpl in *. assert (skip = 0) as -> by lia. rewrite exec_nil. simpl. lia.
  - destruct skip as [|n].
    + rewrite replace_from_scan.
      destruct (exec r (c :: s)) as [rest|] eqn:E.
      * pose proof (exec_consumes r _ _ E) as Hc.
        destruct (List.length (c :: s) - List.length rest) as [|n] eqn:En;
          [lia|].
        rewrite length_app. cbn [List.length] in *.
        specialize (IH n ltac:(lia)). lia.
      * cbn [List.length]. specialize (IH 0 ltac:(lia)). lia.
    + cbn [replace_from List.length] in *. specialize (IH n ltac:(lia)). lia.
Qed.

(** The replacement changes nothing or leaves a shorter string. *)
Lemma replaceAll_same_or_shorter (s : str) :
  replaceAll r repl s = s \/ List.length (replaceAll r repl s) < List.length s.
Proof.
  unfold replaceAll. induction s as [|c s IH].
  - left. simpl. now rewrite exec_nil.
  - rewrite replace_from_scan.
    destruct (exec r (c :: s)) as [rest|] eqn:E.
    + right. pose proof (exec_consumes r _ _ E) as Hc.
      unfold shrinking in Hshrink. simpl in Hshrink.
      destruct (List.length (c :: s) - List.length rest) as [|n] eqn:En;
        [lia|].
      rewrite length_app. cbn [List.length] in *.
      pose proof (replace_from_length s n ltac:(lia)). lia.
    + destruct IH as [->|IH]; [now left|right; cbn [List.length]; lia].
Qed.

End Shrinking.

(** A regex that begins with one character matches nowhere in a string
    that has no such character. *)
Lemma replaceAll_absent (p : char -> bool) (r : regex) (repl s : str) :
  forallb (fun c => negb (p c)) s = true ->
  replaceAll (One p :: r) repl s = s.
Proof.
  unfold replaceAll. induction s as [|c s IH]; simpl; [reflexivity|].
  rewrite andb_true_iff, negb_true_iff. intros [-> H]. now rewrite IH.
Qed.

Lemma substitute_same_or_shorter (subs : list (regex * str)) :
  Forall shrinking subs ->
  forall s, substitute subs s = s
            \/ List.length (substitute subs s) < List.length s.
Proof.
  induction 1 as [|[r repl] subs Hrs _ IH]; intros s; [now left|].
  unfold substitute in *. simpl.
  destruct (replaceAll_same_or_shorter r repl Hrs s) as [->|Hlt]; [apply IH|].
  right. destruct (IH (replaceAll r repl s)) as [->|H]; [exact Hlt|lia].
Qed.

End RegexFacts.

Module Lengths.

Import Lines.

Lemma trimStart_length (s : str) : List.length (trimStart s) <= List.length s.
Proof.
  induction s as [|c s IH]; simpl; [lia|]. destruct (is_space c); simpl; lia.
Qed.

Lemma trimEnd_length (s : str) : List.length (trimEnd s) <= List.length s.
Proof.
  induction s as [|c s IH]; simpl; [lia|].
  destruct (trimEnd s); [destruct (is_space c)|]; simpl in *; lia.
Qed.

Lemma trim_length (s : str) : List.length (trim s) <= List.length s.
Proof.
  unfold trim. pose proof (trimEnd_length (trimStart s)).
  pose proof (trimStart_length s). lia.
Qed.

Lemma join_cons_length (sep x : str) (a : list str) :
  List.length (join sep (x :: a)) =
  List.length x
  + match a with
    | [] => 0
    | _ => List.length sep + List.length (join sep a)
    end.
Proof.
  destruct a as [|y a]; simpl; [lia|]. now rewrite !length_app.
Qed.

Lemma join_split (sep : char) (s : str) : join [sep] (split sep s) = s.
Proof.
  induction s as [|c s IH]; [reflexivity|]. simpl.
  destruct (char_eqb c sep) eqn:E.
  - apply char_eqb_eq in E. subst c.
    destruct (split sep s) as [|seg segs] eqn:Es; [now apply split_nonempty in Es|].
    change (join [sep] ([] :: seg :: segs)) with (sep :: join [sep] (seg :: segs)).
    now rewrite IH.
  - destruct (split sep s) as [|seg segs] eqn:Es; [now apply split_nonempty in Es|].
    rewrite <- IH. destruct segs; reflexivity.
Qed.

(** Trimming lines and dropping the empty ones does not lengthen what they
    join to. *)
Lemma kept_join_length (lines : list str) :
  List.length (join [NL] (filter nonempty (List.map trim lines)))
  <= List.length (join [NL] lines).
Proof.
  induction lines as [|x lines IH]; [simpl; lia|].
  rewrite join_cons_length. cbn [List.map filter].
  pose proof (trim_length x) as Hx.
  assert (Hnil : lines = [] -> filter nonempty (List.map trim lines) = [])
    by now intros ->.
  destruct (nonempty (trim x)).
  - rewrite join_cons_length.
    destruct (filter nonempty (List.map trim lines)) as [|y kept] eqn:E.
    + lia.
    + destruct lines; [now specialize (Hnil eq_refl)|]. lia.
  - destruct lines; [simpl; lia|]. lia.
Qed.

Lemma reflow_length (s : str) : List.length (reflow s) <= List.length s.
Proof.
  unfold reflow. rewrite <- (join_split NL s) at 2. apply kept_join_length.
Qed.

End Lengths.

(* ===================================================================== *)
(** ** The text normaliser *)
(* ===================================================================== *)

Module Normalizer.

Import Lines RegexFacts Lengths.

Lemma substitutions_shrinking : Forall shrinking substitutions.
Proof. repeat constructor; unfold shrinking; cbn; lia. Qed.

Lemma strip_markup_same_or_shorter (s : str) :
  strip_markup s = s \/ List.length (strip_markup s) < List.length s.
Proof. apply (substitute_same_or_shorter _ substitutions_shrinking). Qed.

Lemma is_ci_plain (y c : char) :
  (y = 60 \/ y = 91 \/ y = 38)%N -> plain c = true -> is_ci y c = false.
Proof.
  unfold plain, is_ci, char_eqb, upper.
  rewrite negb_true_iff, !orb_false_iff, !N.eqb_neq.
  intros Hy [[Hc H1] H2].
  destruct ((97 <=? c) && (c <=? 122))%N eqn:E.
  - apply andb_prop in E. destruct E as [E1 E2].
    apply N.leb_le in E1, E2.
    destruct Hy as [-> | [-> | ->]]; cbn; lia.
  - destruct Hy as [-> | [-> | ->]]; cbn; lia.
Qed.

Lemma char_eqb_plain (y c : char) :
  (y = 60 \/ y = 91 \/ y = 38)%N -> plain c = true -> char_eqb y c = false.
Proof.
  unfold plain, char_eqb.
  rewrite negb_true_iff, !orb_false_iff, !N.eqb_neq.
  intros Hy [[Hc H1] H2]. destruct Hy as [-> | [-> | ->]]; congruence.
Qed.

Lemma substitutions_guarded : Forall guarded substitutions.
Proof.
  repeat constructor; eexists; eexists; (split; [reflexivity|]); intros c Hc;
    first [ apply is_ci_plain; [cbn; tauto|exact Hc]
          | apply char_eqb_plain; [cbn; tauto|exact Hc] ].
Qed.

Lemma substitute_plain (subs : list (regex * str)) (s : str) :
  Forall guarded subs -> markup_free s = true -> substitute subs s = s.
Proof.
  intros Hsubs Hs. induction Hsubs as [|[r repl] subs (p & r' & Hr & Hp) _ IH];
    [reflexivity|].
  unfold substitute in *. simpl in *. subst r.
  rewrite replaceAll_absent; [exact IH|].
  unfold markup_free in Hs. rewrite forallb_forall in *.
  intros c Hc. rewrite (Hp c (Hs c Hc)). reflexivity.
Qed.

Lemma strip_markup_plain (s : str) : markup_free s = true -> strip_markup s = s.
Proof. apply (substitute_plain _ _ substitutions_guarded). Qed.

End Normalizer.

(** C8.  The normaliser maps "A<div>B</div>" to "A\nB": the substitutions
    turn the opening tag into a newline and the closing tag into a space,
    and the re-flow trims that space away. *)
Theorem cleanWithRegex_div :
  strip_markup (lit "A<div>B</div>") = lit "A" ++ [NL] ++ lit "B "
  /\ cleanWithRegex (lit "A<div>B</div>") = lit "A" ++ [NL] ++ lit "B".
Proof. split; vm_compute; reflexivity. Qed.

(** C1 fails as stated: "&lt;b&gt;x" is normalised to "<b>x", whose tag
    the second pass removes. *)
Lemma cleanWithRegex_not_idempotent :
  ~ (forall x : str, cleanWithRegex (cleanWithRegex x) = cleanWithRegex x).
Proof.
  intros H. specialize (H (lit "&lt;b&gt;x")). vm_compute in H. discriminate.
Qed.

(** C1, amended.  Normalising twice equals normalising once exactly when
    the nine substitutions leave the normalised text unchanged, and that is
    so whenever the normalised text has no [<], no [[] and no [&]. *)
Theorem cleanWithRegex_idempotent_when :
  forall x : str,
    (cleanWithRegex (cleanWithRegex x) = cleanWithRegex x
     <-> strip_markup (cleanWithRegex x) = cleanWithRegex x)
    /\ (markup_free (cleanWithRegex x) = true ->
        cleanWithRegex (cleanWithRegex x) = cleanWithRegex x).
Proof.
  intros x.
  assert (Hif : strip_markup (cleanWithRegex x) = cleanWithRegex x ->
                cleanWithRegex (cleanWithRegex x) = cleanWithRegex x).
  { intros H. unfold cleanWithRegex at 1. rewrite H.
    unfold cleanWithRegex. apply Lines.reflow_idem. }
  split; [split; [|exact Hif]|].
  - intros H.
    destruct (Normalizer.strip_markup_same_or_shorter (cleanWithRegex x))
      as [E|Hlt]; [exact E|exfalso].
    pose proof (Lengths.reflow_length (strip_markup (cleanWithRegex x))) as Hle.
    fold (cleanWithRegex (cleanWithRegex x)) in Hle. rewrite H in Hle. lia.
  - intros H. apply Hif, Normalizer.strip_markup_plain, H.
Qed.

Lemma cleanWithRegex_idempotent_when_witness :
  markup_free (cleanWithRegex (lit "A<div>B</div>")) = true
  /\ cleanWithRegex (cleanWithRegex (lit "A<div>B</div>"))
     = cleanWithRegex (lit "A<div>B</div>").
Proof.
  split; [vm_compute; reflexivity|].
  apply (cleanWithRegex_idempotent_when (lit "A<div>B</div>")).
  vm_compute. reflexivity.
Defined.

(** C9 fails as stated: the normalised empty string is empty, and the
    empty string splits into one segment, which is empty. *)
Lemma cleanWithRegex_empty_segment :
  ~ (forall x seg : str,
       In seg (split NL (cleanWithRegex x)) -> seg <> [] /\ trim seg = seg).
Proof.
  intros H. destruct (H [] [] (or_introl eq_refl)) as [Hne _]. now apply Hne.
Qed.

(** C9, amended.  The output is empty, or every segment between its
    newlines is non-empty and equal to its own trim; and it neither starts
    nor ends with a newline. *)
Theorem cleanWithRegex_lines :
  forall x : str,
    (cleanWithRegex x = []
     \/ forall seg : str,
          In seg (split NL (cleanWithRegex x)) -> seg <> [] /\ trim seg = seg)
    /\ (forall rest : str, cleanWithRegex x <> NL :: rest)
    /\ (forall rest : str, cleanWithRegex x <> rest ++ [NL]).
Proof.
  intros x. unfold cleanWithRegex. set (m := strip_markup x).
  destruct (kept_lines m) as [|l ls] eqn:E.
  - rewrite (Lines.reflow_empty m E). repeat split.
    + now left.
    + discriminate.
    + intros rest H. symmetry in H. now apply app_eq_nil in H.
  - assert (Hne : kept_lines m <> []) by (rewrite E; discriminate).
    pose proof (Lines.split_reflow m Hne) as Hs.
    assert (Hseg : forall seg, In seg (split NL (reflow m)) -> seg <> []).
    { intros seg Hin. rewrite Hs in Hin. now apply Lines.kept_line in Hin. }
    repeat split.
    + right. intros seg Hin. rewrite Hs in Hin.
      apply Lines.kept_line in Hin. tauto.
    + intros rest H. apply (Hseg []); [|reflexivity].
      rewrite H. simpl. now left.
    + intros rest H. apply (Hseg []); [|reflexivity].
      rewrite H, Lines.split_snoc_sep. apply in_or_app. right. now left.
Qed.

Lemma cleanWithRegex_lines_witness :
  In (lit "B") (split NL (cleanWithRegex (lit "A<div>B</div>")))
  /\ lit "B" <> [] /\ trim (lit "B") = lit "B".
Proof.
  split; [vm_compute; tauto|].
  destruct (cleanWithRegex_lines (lit "A<div>B</div>")) as [[H|H] _].
  - vm_compute in H. discriminate.
  - apply H. vm_compute. tauto.
Defined.

(* ===================================================================== *)
(** ** Ordering by due number *)
(* ===================================================================== *)

Module Ordering.

Lemma insert_perm (x : Card) (l : list Card) :
  Permutation (insert by_due x l) (x :: l).
Proof.
  induction l as [|y l IH]; simpl; [reflexivity|].
  destruct (by_due x y <=? 0)%Z; [reflexivity|].
  rewrite IH. apply perm_swap.
Qed.

Lemma sort_perm (l : list Card) : Permutation (sort by_due l) l.
Proof.
  induction l as [|x l IH]; simpl; [reflexivity|].
  fold (sort by_due l). rewrite insert_perm. now constructor.
Qed.

Lemma insert_sorted (x : Card) (l : list Card) :
  StronglySorted due_le l -> StronglySorted due_le (insert by_due x l).
Proof.
  induction 1 as [|y l Hl IH Hy]; simpl; [repeat constructor|].
  destruct (by_due x y <=? 0)%Z eqn:E; unfold by_due in E.
  - apply Z.leb_le in E. constructor; [now constructor|].
    constructor; [unfold due_le; lia|].
    eapply Forall_impl; [|exact Hy]. unfold due_le. intros z Hz. lia.
  - apply Z.leb_gt in E. constructor; [exact IH|].
    eapply Permutation_Forall; [symmetry; apply insert_perm|].
    constructor; [unfold due_le; lia|exact Hy].
Qed.

Lemma sort_sorted (l : list Card) : StronglySorted due_le (sort by_due l).
Proof.
  induction l as [|x l IH]; simpl; [constructor|]. now apply insert_sorted.
Qed.

Lemma filter_insert (d : Z) (x : Card) (l : list Card) :
  filter (has_due d) (insert by_due x l) = filter (has_due d) (x :: l).
Proof.
  induction l as [|y l IH]; [reflexivity|].
  cbn [insert]. destruct (by_due x y <=? 0)%Z eqn:E; [reflexivity|].
  apply Z.leb_gt in E. unfold by_due in E.
  cbn [filter] in *. rewrite IH. unfold has_due.
  destruct (due x =? d)%Z eqn:Ex, (due y =? d)%Z eqn:Ey; try reflexivity.
  apply Z.eqb_eq in Ex, Ey. lia.
Qed.

(** The sort is stable: the cards of any one due number keep their
    order. *)
Lemma filter_sort (d : Z) (l : list Card) :
  filter (has_due d) (sort by_due l) = filter (has_due d) l.
Proof.
  induction l as [|x l IH]; [reflexivity|].
  cbn [sort fold_right]. fold (sort by_due l).
  rewrite filter_insert. cbn [filter]. now rewrite IH.
Qed.

(** Sorted and stable determine the result: two lists ordered by due
    number whose cards of each due number come in the same order are the
    same list.  So every algorithm that meets the contract of
    [Array.prototype.sort] computes [sort by_due]. *)
Lemma sorted_stable_unique (l1 l2 : list Card) :
  StronglySorted due_le l1 -> StronglySorted due_le l2 ->
  (forall d, filter (has_due d) l1 = filter (has_due d) l2) ->
  l1 = l2.
Proof.
  intros H1. revert l2. induction H1 as [|x l1 Hs1 IH Hx]; intros l2 H2 Hf.
  - destruct l2 as [|y l2]; [reflexivity|].
    specialize (Hf (due y)). cbn in Hf. unfold has_due in Hf at 1.
    rewrite Z.eqb_refl in Hf. discriminate.
  - destruct H2 as [|y l2 Hs2 Hy].
    + specialize (Hf (due x)). cbn in Hf. unfold has_due in Hf at 1.
      rewrite Z.eqb_refl in Hf. discriminate.
    + assert (Hxy : due x = due y).
      { assert (In x (y :: l2)) as Hin.
        { apply (proj1 (filter_In (has_due (due x)) x (y :: l2))).
          rewrite <- Hf. cbn. unfold has_due at 1. rewrite Z.eqb_refl.
          now left. }
        assert (In y (x :: l1)) as Hin'.
        { apply (proj1 (filter_In (has_due (due y)) y (x :: l1))).
          rewrite Hf. cbn. unfold has_due at 1. rewrite Z.eqb_refl.
          now left. }
        rewrite Forall_forall in Hx, Hy. unfold due_le in *.
        destruct Hin as [->|Hin]; [reflexivity|].
        destruct Hin' as [->|Hin']; [reflexivity|].
        specialize (Hx _ Hin'). specialize (Hy _ Hin). lia. }
      assert (x = y) as ->.
      { specialize (Hf (due x)). cbn [filter] in Hf.
        assert (has_due (due x) x = true) as Ex by apply Z.eqb_refl.
        assert (has_due (due x) y = true) as Ey
          by (unfold has_due; rewrite Hxy; apply Z.eqb_refl).
        rewrite Ex, Ey in Hf. now injection Hf. }
      f_equal. apply IH; [exact Hs2|]. intros d. specialize (Hf d).
      cbn [filter] in Hf. destruct (has_due d y); [now injection Hf|exact Hf].
Qed.

End Ordering.

(* ===================================================================== *)
(** ** Running programs *)
(* ===================================================================== *)

Module Running.

Lemma run_from_then {A B : Type} (b : Backend) (p : Prog A) (f : A -> Prog B) :
  forall before,
    run_from b before (then_ p f) =
    match run_from b before p with
    | (calls, inr a) => run_from b calls (f a)
    | (calls, inl e) => (calls, inl e)
    end.
Proof.
  induction p as [a|e|X c k IH]; intros before; simpl; [reflexivity..|].
  apply IH.
Qed.

Lemma run_from_try_catch {A : Type} (b : Backend) (p : Prog A)
      (h : Thrown -> Prog A) :
  forall before,
    run_from b before (try_catch p h) =
    match run_from b before p with
    | (calls, inr a) => (calls, inr a)
    | (calls, inl e) => run_from b calls (h e)
    end.
Proof.
  induction p as [a|e|X c k IH]; intros before; simpl; [reflexivity..|].
  apply IH.
Qed.

Lemma run_from_await {X : Type} (b : Backend) (c : Call X) (before : list Made) :
  run_from b before (await c) = (before ++ [made c], b X before c).
Proof. simpl. destruct (b X before c); reflexivity. Qed.

End Running.

(* ===================================================================== *)
(** ** The card query *)
(* ===================================================================== *)

(** C7.  When the backend finds no card for a filter expression,
    [findCardsAndOrder] returns the empty sequence, throws nothing, and the
    only call made is the search: the card details are not fetched. *)
Theorem findCardsAndOrder_no_match :
  forall (b : Backend) (query : str),
    b _ [] (findCards query) = inr [] ->
    run b (findCardsAndOrder query) = ([made (findCards query)], inr []).
Proof.
  intros b query H. unfold run, findCardsAndOrder. cbn. rewrite H.
  reflexivity.
Qed.

Lemma findCardsAndOrder_no_match_witness :
  Examples.deck _ [] (findCards (lit "is:new")) = inr []
  /\ run Examples.deck (findCardsAndOrder (lit "is:new"))
     = ([made (findCards (lit "is:new"))], inr []).
Proof.
  split; [reflexivity|].
  apply (findCardsAndOrder_no_match Examples.deck (lit "is:new")).
  reflexivity.
Defined.

(** C2.  When the backend finds cards and answers the request for their
    details with the records [infos], [findCardsAndOrder] returns their
    cards in non-decreasing order of due number, and the cards of any one
    due number in the order in which the backend returned them. *)
Theorem findCardsAndOrder_sorted_stable :
  forall (b : Backend) (query : str) (ids : list Z) (infos : list CardInfo),
    b _ [] (findCards query) = inr ids ->
    ids <> [] ->
    b _ [made (findCards query)] (cardsInfo (ids_value ids)) = inr infos ->
    exists cards : list Card,
      run b (findCardsAndOrder query)
      = ([made (findCards query); made (cardsInfo (ids_value ids))], inr cards)
      /\ StronglySorted due_le cards
      /\ Permutation cards (List.map to_card infos)
      /\ forall d : Z,
           filter (has_due d) cards
           = filter (has_due d) (List.map to_card infos).
Proof.
  intros b query ids infos Hfind Hne Hinfo.
  exists (sort by_due (List.map to_card infos)). split.
  - unfold run, findCardsAndOrder. cbn. rewrite Hfind.
    destruct ids as [|id ids]; [congruence|]. cbn. rewrite Hinfo. reflexivity.
  - split; [apply Ordering.sort_sorted|].
    split; [apply Ordering.sort_perm|]. intros d. apply Ordering.filter_sort.
Qed.

Lemma findCardsAndOrder_sorted_stable_witness :
  exists cards : list Card,
    run Examples.deck (findCardsAndOrder (lit "is:due"))
    = ([made (findCards (lit "is:due"));
        made (cardsInfo (ids_value [11; 12; 13]%Z))], inr cards)
    /\ StronglySorted due_le cards
    /\ Permutation cards
         (List.map to_card
            [ Examples.info 11 "<b>one</b>" "1" 7; Examples.info 12 "two" "2" 3;
              Examples.info 13 "three" "3" 7 ])
    /\ forall d : Z,
         filter (has_due d) cards
         = filter (has_due d)
             (List.map to_card
                [ Examples.info 11 "<b>one</b>" "1" 7;
                  Examples.info 12 "two" "2" 3;
                  Examples.info 13 "three" "3" 7 ]).
Proof.
  apply (findCardsAndOrder_sorted_stable Examples.deck (lit "is:due")
           [11; 12; 13]%Z).
  - reflexivity.
  - discriminate.
  - reflexivity.
Defined.

Example findCardsAndOrder_deck :
  List.map cardId
    (match snd (run Examples.deck (findCardsAndOrder (lit "is:due"))) with
     | inr cards => cards
     | inl _ => []
     end) = [12; 11; 13]%Z.
Proof. vm_compute. reflexivity. Qed.

(* ===================================================================== *)
(** ** The tool dispatcher *)
(* ===================================================================== *)

Module Dispatch.

Import Running.

Section WithEngine.

Context {engine : Engine}.

(** What the handler does with the outcome of the [try] block. *)
Lemma run_callTool (b : Backend) (name : str) (args : Args) :
  run b (callTool name (Some args)) =
  match run b (dispatch name args) with
  | (calls, inr result) => (calls, inr result)
  | (calls, inl error) => (calls, inl (wrapped name error))
  end.
Proof.
  unfold run, callTool. cbn [catch Exc_Prog].
  rewrite run_from_try_catch.
  destruct (run_from b [] (dispatch name args)) as [calls [e|r]]; reflexivity.
Qed.

(** A name outside the switch: the default case throws, and the handler
    wraps what it throws; the backend is not called. *)
Lemma run_callTool_unknown (b : Backend) (name : str) (args : Args) :
  find (fun c => str_eqb name (fst c)) cases = None ->
  run b (callTool name (Some args))
  = ([], inl (Error (lit "Error in tool " ++ name ++ lit ": "
                       ++ lit "Unknown tool: " ++ name))).
Proof.
  intros Hname. rewrite run_callTool. unfold dispatch. rewrite Hname.
  reflexivity.
Qed.

Lemma number_eqb_of_nat (n m : nat) :
  number_eqb (of_nat n) (of_nat m) = (n =? m)%nat.
Proof.
  unfold number_eqb, of_nat, of_Z.
  destruct (Nat.eqb_spec n m) as [->|Hne].
  - apply Qeq_bool_iff. reflexivity.
  - destruct (Qeq_bool (inject_Z (Z.of_nat n)) (inject_Z (Z.of_nat m))) eqn:E;
      [|reflexivity].
    apply Qeq_bool_iff, inject_Z_injective, Nat2Z.inj in E. contradiction.
Qed.

Lemma get_array_length (items : list JsVal) :
  get (JArr items) (lit "length") = inr (JNum (of_nat (List.length items))).
Proof. reflexivity. Qed.







Lemma slice_to_NaN {A : Type} (a : list A) : slice (of_Z 0) NaN a = [].
Proof.
  unfold slice. cbn [ToIntegerOrInfinity of_Z inject_Z Qnum Qden].
  change (Z.quot 0 1) with 0%Z. cbn [relative_index Z.ltb Z.compare].
  rewrite Z.min_l by lia. reflexivity.
Qed.

(** get_due_cards and get_new_cards when [Number(args.num)] is NaN: the
    outcome of the query decides, and a query that returns is answered with
    the empty array. *)
Lemma run_get_cards_NaN (b : Backend) (query : str) (args : Args) :
  ToNumber (lookup (lit "num") args) = NaN ->
  run b (get_cards query args) =
  match run b (findCardsAndOrder query) with
  | (calls, inr _) => (calls, inr (text_result (Some (lit "[]"))))
  | (calls, inl error) => (calls, inl error)
  end.
Proof.
  intros Hnum. unfold get_cards, run. rewrite Hnum.
  cbn [bind Monad_Prog]. rewrite run_from_then.
  destruct (run_from b [] (findCardsAndOrder query)) as [calls [e|cards]];
    [reflexivity|].
  rewrite slice_to_NaN. reflexivity.
Qed.

End WithEngine.

End Dispatch.

Section Dispatcher.

Context {engine : Engine}.

(** C6.  Whatever the tool name, a request without arguments fails with
    the error of the missing arguments; the name is only quoted in the
    message, no case is entered and the backend is not called. *)
Theorem callTool_no_arguments :
  forall (b : Backend) (name : str),
    callTool name None
    = Throw (Error (lit "No arguments provided for tool: " ++ name))
    /\ run b (callTool name None)
       = ([], inl (Error (lit "No arguments provided for tool: " ++ name))).
Proof. intros b name. split; reflexivity. Qed.

(** C5.  When [cards] and [easeFactors] are arrays of different lengths,
    set_ease_factors fails with the error of the mismatch and the backend is
    not called. *)
Theorem set_ease_factors_length_mismatch :
  forall (b : Backend) (args : Args) (cards easeFactors : list JsVal),
    lookup (lit "cards") args = JArr cards ->
    lookup (lit "easeFactors") args = JArr easeFactors ->
    List.length cards <> List.length easeFactors ->
    run b (callTool (lit "set_ease_factors") (Some args))
    = ([], inl (Error (lit "Error in tool set_ease_factors: Cards and easeFactors arrays must have the same length"))).
Proof.
  intros b args cards easeFactors Hc He Hne.
  rewrite Dispatch.run_callTool.
  change (dispatch (lit "set_ease_factors") args) with (set_ease_factors args).
  unfold set_ease_factors, length_of. rewrite Hc, He.
  rewrite !Dispatch.get_array_length.
  cbn [lift bind Monad_Prog then_ strict_eqb].
  rewrite Dispatch.number_eqb_of_nat.
  destruct (Nat.eqb_spec (List.length cards) (List.length easeFactors));
    [contradiction|reflexivity].
Qed.

(** C3, amended.  When a request has arguments, whatever is thrown inside
    the dispatch (by a check of the arguments, by the default case for an
    unknown name, by the backend) reaches the client as an error whose
    message is "Error in tool {name}: {message of what was thrown}", after
    the same backend calls; and the handler fails in no other way. *)
Theorem callTool_wraps_errors :
  forall (b : Backend) (name : str) (args : Args),
    (forall (calls : list Made) (underlying : Thrown),
       run b (dispatch name args) = (calls, inl underlying) ->
       run b (callTool name (Some args))
       = (calls,
          inl (Error (lit "Error in tool " ++ name ++ lit ": "
                        ++ message_of underlying))))
    /\ (forall (calls : list Made) (error : Thrown),
          run b (callTool name (Some args)) = (calls, inl error) ->
          exists underlying : Thrown,
            run b (dispatch name args) = (calls, inl underlying)
            /\ error = Error (lit "Error in tool " ++ name ++ lit ": "
                                ++ message_of underlying)).
Proof.
  intros b name args. split.
  - intros calls underlying Hrun. rewrite Dispatch.run_callTool, Hrun.
    reflexivity.
  - intros calls error. rewrite Dispatch.run_callTool.
    destruct (run b (dispatch name args)) as [calls' [e|r]]; [|discriminate].
    intros H. injection H as <- <-. exists e. split; reflexivity.
Qed.


(** C10.  When [Number(args.num)] is NaN, as it is for an absent [num],
    get_due_cards and get_new_cards check nothing and fetch the cards as
    usual; a fetch that returns is answered with the text "[]", and the
    only failure left is the one of the fetch itself. *)
Theorem get_cards_NaN :
  forall (b : Backend) (args : Args),
    ToNumber JUndefined = NaN
    /\ (ToNumber (lookup (lit "num") args) = NaN ->
        run b (callTool (lit "get_due_cards") (Some args))
        = match run b (findCardsAndOrder (lit "is:due")) with
          | (calls, inr _) => (calls, inr (text_result (Some (lit "[]"))))
          | (calls, inl error) =>
              (calls, inl (wrapped (lit "get_due_cards") error))
          end
        /\ run b (callTool (lit "get_new_cards") (Some args))
           = match run b (findCardsAndOrder (lit "is:new")) with
             | (calls, inr _) => (calls, inr (text_result (Some (lit "[]"))))
             | (calls, inl error) =>
                 (calls, inl (wrapped (lit "get_new_cards") error))
             end).
Proof.
  intros b args. split; [reflexivity|]. intros Hnum.
  rewrite !Dispatch.run_callTool.
  change (dispatch (lit "get_due_cards") args)
    with (get_cards (lit "is:due") args).
  change (dispatch (lit "get_new_cards") args)
    with (get_cards (lit "is:new") args).
  rewrite !Dispatch.run_get_cards_NaN by exact Hnum.
  split.
  - destruct (run b (findCardsAndOrder (lit "is:due"))) as [calls [e|cards]];
      reflexivity.
  - destruct (run b (findCardsAndOrder (lit "is:new"))) as [calls [e|cards]];
      reflexivity.
Qed.

End Dispatcher.

(** C3 fails as stated: the error of the missing arguments is thrown
    before the [try] block and reaches the client as it is. *)
Lemma callTool_error_not_wrapped :
  ~ (forall (engine : Engine) (b : Backend) (name : str) (args : option Args)
            (calls : list Made) (error : Thrown),
       run b (callTool name args) = (calls, inl error) ->
       exists message : str,
         error = Error (lit "Error in tool " ++ name ++ lit ": " ++ message)).
Proof.
  intros H.
  destruct (H Examples.simple Examples.offline (lit "list_decks") None [] _
              eq_refl) as [message Hm].
  cbv in Hm. discriminate Hm.
Qed.

Lemma callTool_wraps_errors_witness :
  run Examples.offline
    (dispatch (engine := Examples.simple) (lit "get_due_cards")
       [ (lit "num", JNum (of_Z 2)) ])
  = ([made (findCards (lit "is:due"))], inl (ThrownError (lit "fetch failed")))
  /\ run Examples.offline
       (callTool (engine := Examples.simple) (lit "get_due_cards")
          (Some [ (lit "num", JNum (of_Z 2)) ]))
     = ([made (findCards (lit "is:due"))],
        inl (Error (lit "Error in tool " ++ lit "get_due_cards" ++ lit ": "
                      ++ lit "fetch failed"))).
Proof.
  split; [reflexivity|].
  apply (proj1 (callTool_wraps_errors (engine := Examples.simple)
                  Examples.offline (lit "get_due_cards")
                  [ (lit "num", JNum (of_Z 2)) ])
           [made (findCards (lit "is:due"))]
           (ThrownError (lit "fetch failed"))).
  reflexivity.
Defined.

Lemma set_ease_factors_length_mismatch_witness :
  run Examples.deck
    (callTool (engine := Examples.simple) (lit "set_ease_factors")
       (Some [ (lit "cards", ids_value [11; 12; 13]%Z);
               (lit "easeFactors", ids_value [2500; 2500]%Z) ]))
  = ([], inl (Error (lit "Error in tool set_ease_factors: Cards and easeFactors arrays must have the same length"))).
Proof.
  apply (set_ease_factors_length_mismatch (engine := Examples.simple)
           Examples.deck _
           (List.map (fun id => JNum (of_Z id)) [11; 12; 13]%Z)
           (List.map (fun id => JNum (of_Z id)) [2500; 2500]%Z)).
  - reflexivity.
  - reflexivity.
  - simpl. lia.
Defined.


Lemma get_cards_NaN_witness :
  ToNumber (engine := Examples.simple) (lookup (lit "num") []) = NaN
  /\ run Examples.deck
       (callTool (engine := Examples.simple) (lit "get_due_cards") (Some []))
     = ([made (findCards (lit "is:due"));
         made (cardsInfo (ids_value [11; 12; 13]%Z))],
        inr (text_result (Some (lit "[]"))))
  /\ run Examples.deck
       (callTool (engine := Examples.simple) (lit "get_new_cards") (Some []))
     = ([made (findCards (lit "is:new"))],
        inr (text_result (Some (lit "[]")))).
Proof.
  split; [reflexivity|].
  apply (proj2 (get_cards_NaN (engine := Examples.simple) Examples.deck [])).
  reflexivity.
Defined.

(** Some runs of the handler. *)
Example get_due_cards_word :
  run Examples.deck
    (callTool (engine := Examples.simple) (lit "get_due_cards")
       (Some [ (lit "num", JStr (lit "many")) ]))
  = ([made (findCards (lit "is:due"));
      made (cardsInfo (ids_value [11; 12; 13]%Z))],
     inr (text_result (Some (lit "[]")))).
Proof. vm_compute. reflexivity. Qed.

Example get_due_cards_offline :
  run Examples.offline
    (callTool (engine := Examples.simple) (lit "get_due_cards") (Some []))
  = ([made (findCards (lit "is:due"))],
     inl (Error (lit "Error in tool get_due_cards: fetch failed"))).
Proof. vm_compute. reflexivity. Qed.

Example unknown_tool :
  run Examples.deck
    (callTool (engine := Examples.simple) (lit "shuffle_deck") (Some []))
  = ([], inl (Error (lit "Error in tool shuffle_deck: Unknown tool: shuffle_deck"))).
Proof. vm_compute. reflexivity. Qed.

Example suspend_three :
  run Examples.deck
    (callTool (engine := Examples.simple) (lit "suspend_cards")
       (Some [ (lit "cards", ids_value [11; 12; 13]%Z) ]))
  = ([made (suspend (ids_value [11; 12; 13]%Z))],
     inr (text_result (Some (lit "Suspended 3 cards: 11, 12, 13")))).
Proof. vm_compute. reflexivity. Qed.

(* ===================================================================== *)
(** ** More about the text normaliser *)
(* ===================================================================== *)

(** X1.  The normaliser never lengthens a text. *)
Theorem cleanWithRegex_never_longer :
  forall x : str, List.length (cleanWithRegex x) <= List.length x.
Proof.
  intros x. unfold cleanWithRegex.
  pose proof (Lengths.reflow_length (strip_markup x)) as Hr.
  destruct (Normalizer.strip_markup_same_or_shorter x) as [E|Hlt].
  - rewrite E in *. exact Hr.
  - lia.
Qed.

(** X2.  A text without [<], [[] and [&] is only re-flowed: what comes out
    are its lines, trimmed, without the empty ones, joined by newlines. *)
Theorem cleanWithRegex_plain_text :
  forall x : str,
    markup_free x = true ->
    cleanWithRegex x = join [NL] (kept_lines x).
Proof.
  intros x Hx. unfold cleanWithRegex.
  rewrite (Normalizer.strip_markup_plain x Hx). reflexivity.
Qed.

Lemma cleanWithRegex_plain_text_witness :
  markup_free (lit "  due:  tomorrow ") = true
  /\ cleanWithRegex (lit "  due:  tomorrow ")
     = join [NL] (kept_lines (lit "  due:  tomorrow ")).
Proof.
  split; [reflexivity|].
  apply (cleanWithRegex_plain_text (lit "  due:  tomorrow ")). reflexivity.
Defined.

Module Normal.

Import Lines.

Lemma markup_free_app (a b : str) :
  markup_free (a ++ b) = markup_free a && markup_free b.
Proof. apply forallb_app. Qed.

Lemma markup_free_join (lines : list str) :
  (forall l, In l lines -> markup_free l = true) ->
  markup_free (join [NL] lines) = true.
Proof.
  induction lines as [|x lines IH]; intros H; [reflexivity|].
  destruct lines as [|y lines]; [apply H; now left|].
  change (join [NL] (x :: y :: lines)) with (x ++ NL :: join [NL] (y :: lines)).
  rewrite markup_free_app. rewrite (H x (or_introl eq_refl)).
  change (markup_free (NL :: join [NL] (y :: lines)))
    with (markup_free (join [NL] (y :: lines))).
  apply IH. intros l Hl. apply H. now right.
Qed.

End Normal.

(** X3.  Normalised text is left as it is: a text made of non-empty,
    trimmed lines without [<], [[] and [&], joined by newlines, is its own
    normal form. *)
Theorem cleanWithRegex_fixes_normal_text :
  forall lines : list str,
    (forall l, In l lines ->
               l <> [] /\ trim l = l /\ ~ In NL l /\ markup_free l = true) ->
    cleanWithRegex (join [NL] lines) = join [NL] lines.
Proof.
  intros lines H. unfold cleanWithRegex.
  rewrite Normalizer.strip_markup_plain
    by (apply Normal.markup_free_join; intros l Hl; now apply H in Hl).
  destruct lines as [|x lines]; [reflexivity|].
  unfold reflow. rewrite Lines.split_join.
  - rewrite Lines.kept_lines_fixed; [reflexivity|].
    intros l Hl. apply H in Hl. tauto.
  - discriminate.
  - intros l Hl. apply H in Hl. tauto.
Qed.

Lemma cleanWithRegex_fixes_normal_text_witness :
  cleanWithRegex (join [NL] [lit "capital of France?"; lit "Paris"])
  = join [NL] [lit "capital of France?"; lit "Paris"].
Proof.
  apply (cleanWithRegex_fixes_normal_text [lit "capital of France?"; lit "Paris"]).
  intros l [<-|[<-|[]]]; repeat split; try discriminate; try reflexivity;
    vm_compute; intuition discriminate.
Defined.

Module StyleBlock.

Lemma skip_match (r : regex) (repl m rest : str) :
  replace_from r repl (List.length m) (m ++ rest) = replace_from r repl 0 rest.
Proof.
  induction m as [|c m IH]; [reflexivity|]. exact IH.
Qed.

(** Where [r] matches a non-empty start of the text, the replacement
    stands for that start and the scan goes on behind it. *)
Lemma replaceAll_match (r : regex) (repl m rest : str) :
  m <> [] ->
  exec r (m ++ rest) = Some rest ->
  replaceAll r repl (m ++ rest) = repl ++ replaceAll r repl rest.
Proof.
  intros Hm Hexec. destruct m as [|c m]; [congruence|].
  unfold replaceAll. change ((c :: m) ++ rest) with (c :: (m ++ rest)) in *.
  rewrite RegexFacts.replace_from_scan, Hexec.
  replace (List.length (c :: m ++ rest) - List.length rest)
    with (S (List.length m))
    by (cbn [List.length]; rewrite length_app; lia).
  now rewrite skip_match.
Qed.

(** Before the first character a regex can start with, nothing changes. *)
Lemma replaceAll_after_plain (p : char -> bool) (r : regex) (repl pre s : str) :
  forallb (fun c => negb (p c)) pre = true ->
  replaceAll (One p :: r) repl (pre ++ s)
  = pre ++ replaceAll (One p :: r) repl s.
Proof.
  unfold replaceAll. induction pre as [|c pre IH]; [reflexivity|].
  cbn [forallb]. rewrite andb_true_iff, negb_true_iff. intros [Hc Hpre].
  change ((c :: pre) ++ s) with (c :: (pre ++ s)).
  rewrite RegexFacts.replace_from_scan. cbn [exec]. rewrite Hc.
  now rewrite IH.
Qed.

Lemma greedy_all (p : char -> bool) (k : str -> option str)
      (taken : str) (c : char) (s rest : str) :
  forallb p taken = true -> p c = false -> k (c :: s) = Some rest ->
  greedy p k (taken ++ c :: s) = Some rest.
Proof.
  intros Htaken Hc Hk. induction taken as [|d taken IH].
  - cbn. now rewrite Hc.
  - cbn [forallb] in Htaken. apply andb_prop in Htaken.
    destruct Htaken as [Hd Htaken]. cbn. rewrite Hd, (IH Htaken). reflexivity.
Qed.

Lemma lazy_star_first (k : str -> option str) (skipped s rest : str) :
  (forall c t, In c skipped -> k (c :: t) = None) ->
  k s = Some rest ->
  lazy_star any k (skipped ++ s) = Some rest.
Proof.
  intros Hskip Hk. induction skipped as [|c skipped IH].
  - destruct s; cbn; now rewrite Hk.
  - cbn. rewrite (Hskip c _ (or_introl eq_refl)). unfold any at 1.
    apply IH. intros d t Hd. apply Hskip. now right.
Qed.

Lemma is_ci_lt (c : char) : c <> 60%N -> is_ci 60%N c = false.
Proof.
  intros Hc. unfold is_ci, char_eqb, upper. apply N.eqb_neq.
  destruct ((97 <=? c) && (c <=? 122))%N eqn:E; cbn; [|exact Hc].
  apply andb_prop in E. destruct E as [E1 E2]. apply N.leb_le in E1, E2. lia.
Qed.

(** The three parts of the pattern of a style block. *)
Lemma exec_style_open (t : str) :
  exec re_style (lit "<style" ++ t)
  = greedy (other_than ">")
      (exec (chars_ci ">" ++ [LazyStar any] ++ chars_ci "</style>")) t.
Proof. reflexivity. Qed.

Lemma exec_style_body (t : str) :
  exec (chars_ci ">" ++ [LazyStar any] ++ chars_ci "</style>") (lit ">" ++ t)
  = lazy_star any (exec (chars_ci "</style>")) t.
Proof. reflexivity. Qed.

Lemma exec_style_close (rest : str) :
  exec (chars_ci "</style>") (lit "</style>" ++ rest) = Some rest.
Proof. reflexivity. Qed.

Lemma exec_style_close_needs_lt (c : char) (t : str) :
  c <> 60%N -> exec (chars_ci "</style>") (c :: t) = None.
Proof.
  intros Hc. change (exec (chars_ci "</style>") (c :: t))
    with (if is_ci 60%N c then exec (chars_ci "/style>") t else None).
  now rewrite (is_ci_lt c Hc).
Qed.

Lemma exec_style_block (attrs body rest : str) :
  ~ In 62%N attrs -> ~ In 60%N body ->
  exec re_style
    (lit "<style" ++ attrs ++ lit ">" ++ body ++ lit "</style>" ++ rest)
  = Some rest.
Proof.
  intros Hattrs Hbody. rewrite exec_style_open.
  change (attrs ++ lit ">" ++ body ++ lit "</style>" ++ rest)
    with (attrs ++ 62%N :: (body ++ lit "</style>" ++ rest)).
  apply greedy_all.
  - apply forallb_forall. intros c Hc. unfold other_than, exactly. cbn.
    apply negb_true_iff, N.eqb_neq. intros ->. contradiction.
  - reflexivity.
  - change (62%N :: body ++ lit "</style>" ++ rest)
      with (lit ">" ++ (body ++ lit "</style>" ++ rest)).
    rewrite exec_style_body. apply lazy_star_first.
    + intros c t Hc. apply exec_style_close_needs_lt. intros ->. contradiction.
    + apply exec_style_close.
Qed.

End StyleBlock.

(** X4.  A style block is dropped with all it holds: when no [<] stands
    before the block or inside it, the text normalises as it does without
    the block. *)
Theorem cleanWithRegex_drops_style_block :
  forall before attrs body rest : str,
    ~ In 60%N before -> ~ In 62%N attrs -> ~ In 60%N body ->
    cleanWithRegex
      (before ++ lit "<style" ++ attrs ++ lit ">" ++ body ++ lit "</style>"
         ++ rest)
    = cleanWithRegex (before ++ rest).
Proof.
  intros before attrs body rest Hbefore Hattrs Hbody.
  assert (Hplain : forallb (fun c => negb (is_ci 60%N c)) before = true).
  { apply forallb_forall. intros c Hc. apply negb_true_iff, StyleBlock.is_ci_lt.
    intros ->. contradiction. }
  unfold cleanWithRegex, strip_markup. f_equal.
  change substitutions with ((re_style, @nil char) :: tl substitutions).
  unfold substitute. cbn [fold_left fst snd]. f_equal.
  change re_style with (One (is_ci 60%N) :: tl re_style).
  rewrite !(StyleBlock.replaceAll_after_plain _ _ _ _ _ Hplain). f_equal.
  change (One (is_ci 60%N) :: tl re_style) with re_style.
  pose proof (StyleBlock.exec_style_block attrs body rest Hattrs Hbody) as Hm.
  replace (lit "<style" ++ attrs ++ lit ">" ++ body ++ lit "</style>" ++ rest)
    with ((lit "<style" ++ attrs ++ lit ">" ++ body ++ lit "</style>") ++ rest)
    in * by (now rewrite <- !app_assoc).
  rewrite StyleBlock.replaceAll_match; [reflexivity|discriminate|exact Hm].
Qed.

Lemma cleanWithRegex_drops_style_block_witness :
  cleanWithRegex
    (lit "Q: " ++ lit "<style" ++ lit " media=screen" ++ lit ">"
       ++ lit ".card { color: red; }" ++ lit "</style>" ++ lit "<b>2+2</b>")
  = cleanWithRegex (lit "Q: " ++ lit "<b>2+2</b>").
Proof.
  apply (cleanWithRegex_drops_style_block (lit "Q: ") (lit " media=screen")
           (lit ".card { color: red; }") (lit "<b>2+2</b>"));
    vm_compute; intuition discriminate.
Defined.

(* ===================================================================== *)
(** ** More about the card query *)
(* ===================================================================== *)

Module Query.

(** The runs of [findCardsAndOrder], by what the backend answers. *)
Lemma run_findCardsAndOrder (b : Backend) (query : str) :
  run b (findCardsAndOrder query) =
  match b _ [] (findCards query) with
  | inl e => ([made (findCards query)], inl e)
  | inr [] => ([made (findCards query)], inr [])
  | inr ids =>
      match b _ [made (findCards query)] (cardsInfo (ids_value ids)) with
      | inl e =>
          ([made (findCards query); made (cardsInfo (ids_value ids))], inl e)
      | inr infos =>
          ([made (findCards query); made (cardsInfo (ids_value ids))],
           inr (sort by_due (List.map to_card infos)))
      end
  end.
Proof.
  unfold run, findCardsAndOrder. cbn.
  destruct (b _ [] (findCards query)) as [e|[|id ids]]; cbn; [reflexivity..|].
  destruct (b _ [made (findCards query)] (cardsInfo (ids_value (id :: ids))));
    reflexivity.
Qed.

Lemma returns_sorted (b : Backend) (query : str) (calls : list Made)
      (cards : list Card) :
  run b (findCardsAndOrder query) = (calls, inr cards) ->
  StronglySorted due_le cards.
Proof.
  rewrite run_findCardsAndOrder.
  destruct (b _ [] (findCards query)) as [e|[|id ids]]; [discriminate| |].
  - intros H. injection H as _ <-. constructor.
  - destruct (b _ [made (findCards query)] (cardsInfo (ids_value (id :: ids))));
      [discriminate|].
    intros H. injection H as _ <-. apply Ordering.sort_sorted.
Qed.

Lemma sort_sorted_same (l : list Card) :
  StronglySorted due_le l -> sort by_due l = l.
Proof.
  induction 1 as [|x l Hl IH Hx]; [reflexivity|].
  cbn [sort fold_right]. fold (sort by_due l). rewrite IH.
  destruct l as [|y l]; [reflexivity|]. cbn [insert].
  apply Forall_inv in Hx. unfold due_le in Hx. unfold by_due.
  destruct (Z.leb_spec (due x - due y) 0); [reflexivity|lia].
Qed.

End Query.



(** X6.  Records the backend returns already in order of due number come
    back in exactly the order of the backend. *)
Theorem findCardsAndOrder_keeps_order :
  forall (b : Backend) (query : str) (ids : list Z) (infos : list CardInfo),
    b _ [] (findCards query) = inr ids ->
    ids <> [] ->
    b _ [made (findCards query)] (cardsInfo (ids_value ids)) = inr infos ->
    StronglySorted (fun x y => (info_due x <= info_due y)%Z) infos ->
    run b (findCardsAndOrder query)
    = ([made (findCards query); made (cardsInfo (ids_value ids))],
       inr (List.map to_card infos)).
Proof.
  intros b query ids infos Hfind Hne Hinfo Hsorted.
  rewrite Query.run_findCardsAndOrder, Hfind.
  destruct ids as [|id ids]; [congruence|]. rewrite Hinfo.
  rewrite Query.sort_sorted_same; [reflexivity|].
  clear -Hsorted. induction Hsorted as [|x l Hl IH Hx]; [constructor|].
  cbn [List.map]. constructor; [exact IH|].
  apply Forall_map. eapply Forall_impl; [|exact Hx]. intros y Hy. exact Hy.
Qed.

Lemma findCardsAndOrder_keeps_order_witness :
  run MoreExamples.ordered (findCardsAndOrder (lit "is:due"))
  = ([made (findCards (lit "is:due")); made (cardsInfo (ids_value [21; 22; 23]%Z))],
     inr (List.map to_card
            [ Examples.info 21 "a" "1" 2; Examples.info 22 "b" "2" 2;
              Examples.info 23 "c" "3" 9 ])).
Proof.
  apply (findCardsAndOrder_keeps_order MoreExamples.ordered (lit "is:due")
           [21; 22; 23]%Z).
  - reflexivity.
  - discriminate.
  - reflexivity.
  - repeat constructor; cbn; lia.
Defined.

(* ===================================================================== *)
(** ** How the cases of the switch behave *)
(* ===================================================================== *)

Module Behaviour.

Import Running.

Lemma behaves_weaken {A : Type} (P P' : Thrown -> Prop) (Q Q' : A -> Prop)
      (p : Prog A) :
  (forall e, P e -> P' e) -> (forall a, Q a -> Q' a) ->
  forall n n', n <= n' -> behaves P Q n p -> behaves P' Q' n' p.
Proof.
  intros HP HQ. induction p as [a|e|X c k IH]; intros n n' Hle; cbn; auto.
  destruct n as [|n]; [intros []|]. destruct n' as [|n']; [lia|].
  intros [Hthrow Hk]. split; [exact Hthrow|].
  intros x. apply (IH (inr x) n n'); [lia|apply Hk].
Qed.

Lemma behaves_then {A B : Type} (P : Thrown -> Prop) (Q' : A -> Prop)
      (Q : B -> Prop) (p : Prog A) (f : A -> Prog B) :
  forall n m,
    behaves P Q' n p ->
    (forall a, Q' a -> behaves P Q m (f a)) ->
    behaves P Q (n + m) (then_ p f).
Proof.
  induction p as [a|e|X c k IH]; intros n m Hp Hf; cbn in *.
  - apply (behaves_weaken P P Q Q (f a)) with (n := m); auto; lia.
  - exact Hp.
  - destruct n as [|n]; [destruct Hp|]. destruct Hp as [Hthrow Hk]. cbn. split.
    + intros e. now rewrite Hthrow.
    + intros x. apply IH; [apply Hk|exact Hf].
Qed.

(** A step that calls nothing, then the rest. *)
Lemma then_pure {A B : Type} (P : Thrown -> Prop) (Q' : A -> Prop)
      (Q : B -> Prop) (n : nat) (p : Prog A) (f : A -> Prog B) :
  behaves P Q' 0 p ->
  (forall a, Q' a -> behaves P Q n (f a)) ->
  behaves P Q n (then_ p f).
Proof. intros Hp Hf. exact (behaves_then P Q' Q p f 0 n Hp Hf). Qed.

(** An awaited call, then the rest. *)
Lemma then_await {X B : Type} (P : Thrown -> Prop) (Q : B -> Prop) (n : nat)
      (c : Call X) (f : X -> Prog B) :
  (forall x, behaves P Q n (f x)) ->
  behaves P Q (S n) (then_ (await c) f).
Proof. intros Hf. cbn. split; [reflexivity|exact Hf]. Qed.

(** An expression that may throw, then the rest. *)
Lemma then_lift {A B : Type} (P : Thrown -> Prop) (Q : B -> Prop) (n : nat)
      (r : Thrown + A) (f : A -> Prog B) :
  (forall e, r = inl e -> P e) ->
  (forall a, r = inr a -> behaves P Q n (f a)) ->
  behaves P Q n (then_ (lift r) f).
Proof. intros He Ha. destruct r as [e|a]; cbn; auto. Qed.

Lemma query_behaves (query : str) :
  behaves (fun _ => False) (fun _ : list Card => True) 2
          (findCardsAndOrder query).
Proof.
  unfold findCardsAndOrder. cbn. split; [reflexivity|]. intros ids.
  destruct (List.length ids =? 0)%nat; cbn; [exact I|].
  split; [reflexivity|]. intros infos. exact I.
Qed.

(** The card query, then a rest that calls nothing. *)
Lemma then_query {B : Type} (P : Thrown -> Prop) (Q : B -> Prop) (n : nat)
      (query : str) (f : list Card -> Prog B) :
  (forall cards, behaves P Q 0 (f cards)) ->
  behaves P Q (S (S n)) (then_ (findCardsAndOrder query) f).
Proof.
  intros Hf.
  apply (behaves_weaken P P Q Q _ (fun e H => H) (fun a H => H) (2 + 0));
    [lia|].
  apply (behaves_then P (fun _ => True)).
  - apply (behaves_weaken (fun _ => False) P (fun _ => True) (fun _ => True)
             _ (fun e H => False_ind _ H) (fun a H => H) 2 2 (le_n 2)).
    apply query_behaves.
  - intros cards _. apply Hf.
Qed.

Lemma cardIds_behave (P : Thrown -> Prop) (a : list JsVal) {engine : Engine} :
  (forall card e, In card a -> get card (lit "cardId") = inl e -> P e) ->
  behaves P (fun _ : list JsVal => True) 0 (cardIds_of a).
Proof.
  induction a as [|card a IH]; intros H; [exact I|].
  cbn [cardIds_of bind ret Monad_Prog]. apply then_lift.
  - intros e He. apply (H card e); [now left|exact He].
  - intros id _. apply (then_pure P (fun _ => True)).
    + apply IH. intros c e Hc. apply H. now right.
    + intros ids _. exact I.
Qed.

(** What running a program that behaves gives. *)
Lemma behaves_run {A : Type} (P : Thrown -> Prop) (Q : A -> Prop)
      (b : Backend) (p : Prog A) :
  forall n before calls out,
    behaves P Q n p ->
    run_from b before p = (calls, out) ->
    List.length calls <= List.length before + n
    /\ match out with
       | inr a => Q a
       | inl e => P e \/ backend_threw b e
       end.
Proof.
  induction p as [a|e|X c k IH]; intros n before calls out Hp Hrun; cbn in *.
  - injection Hrun as <- <-. split; [lia|exact Hp].
  - injection Hrun as <- <-. split; [lia|now left].
  - destruct n as [|n]; [destruct Hp|]. destruct Hp as [Hthrow Hk].
    destruct (b X before c) as [e|x] eqn:Hb.
    + rewrite Hthrow in Hrun. cbn in Hrun. injection Hrun as <- <-.
      rewrite length_app. cbn. split; [lia|]. right.
      now exists X, c, before.
    + destruct (IH (inr x) n _ _ _ (Hk x) Hrun) as [Hlen Hout].
      rewrite length_app in Hlen. cbn in Hlen. split; [lia|exact Hout].
Qed.

(** A property of every case and of the default is a property of the
    dispatch. *)
Lemma dispatch_cases {engine : Engine} (R : Prog ToolResult -> Prop)
      (name : str) (args : Args) :
  Forall (fun c => R (snd c args)) cases ->
  R (Throw (Error (lit "Unknown tool: " ++ name))) ->
  R (dispatch name args).
Proof.
  intros Hcases Hdefault. unfold dispatch.
  destruct (find (fun c => str_eqb name (fst c)) cases) as [[label body]|] eqn:E;
    [|exact Hdefault].
  apply find_some in E. destruct E as [Hin _].
  rewrite Forall_forall in Hcases. exact (Hcases _ Hin).
Qed.

End Behaviour.

Module AnyArguments.

Import Behaviour.

Ltac expose :=
  unfold update_cards, add_card, get_due_cards, get_new_cards, get_cards,
    list_decks, list_decks_with_ids, create_deck, delete_decks, get_deck_stats,
    move_cards_to_deck, get_cards_info, suspend_cards, unsuspend_cards,
    forget_cards, on_cards, check_suspended_status, check_due_status,
    get_ease_factors, ask_cards, set_ease_factors, get_all_cards_in_deck,
    length_of, join_of, filter_of;
  cbn [bind ret raise Monad_Prog Exc_Prog snd].

Ltac walk :=
  repeat first
    [ exact I
    | apply then_await; intros ?
    | apply then_query; intros ?
    | apply then_lift; [intros ? ?|intros ? ?]
    | apply cardIds_behave; intros ? ? ? ?
    | apply (then_pure _ (fun _ => True)); [|intros ? _]
    | match goal with
      | |- behaves _ _ _ (if ?c then _ else _) => destruct c
      | |- behaves _ single_text _ (Ret _) => eexists; reflexivity
      end ].

(** Whatever the arguments, a case makes at most two calls, passes on the
    rejection of a call, and returns one block of text. *)
Lemma cases_behave {engine : Engine} :
  Forall (fun c => forall args : Args,
            behaves (fun _ => True) single_text 2 (snd c args)) cases.
Proof.
  unfold cases.
  repeat (apply Forall_cons; [intros args; expose; walk|]).
  apply Forall_nil.
Qed.

Lemma dispatch_behaves {engine : Engine} (name : str) (args : Args) :
  behaves (fun _ => True) single_text 2 (dispatch name args).
Proof.
  apply (dispatch_cases (behaves (fun _ => True) single_text 2)).
  - eapply Forall_impl; [|exact cases_behave]. intros c H. apply H.
  - exact I.
Qed.

End AnyArguments.

(** X7.  Whatever the tool, the arguments and the backend, a call of the
    handler that returns, returns exactly one content block, of type
    text. *)
Theorem callTool_returns_single_text :
  forall {engine : Engine} (b : Backend) (name : str) (args : option Args)
         (calls : list Made) (result : ToolResult),
    run b (callTool name args) = (calls, inr result) ->
    exists t : option str,
      content result = [ {| type := lit "text"; text := t |} ].
Proof.
  intros engine b name [args|] calls result; [|discriminate].
  rewrite Dispatch.run_callTool.
  destruct (run b (dispatch name args)) as [calls' [e|r]] eqn:Hrun;
    [discriminate|].
  intros H. injection H as <- <-.
  destruct (Behaviour.behaves_run _ _ b _ 2 [] calls' (inr r)
              (AnyArguments.dispatch_behaves name args) Hrun) as [_ [t ->]].
  now exists t.
Qed.

Lemma callTool_returns_single_text_witness :
  exists t : option str,
    content (text_result (Some (lit "Suspended 3 cards: 11, 12, 13")))
    = [ {| type := lit "text"; text := t |} ].
Proof.
  apply (callTool_returns_single_text (engine := Examples.simple) Examples.deck
           (lit "suspend_cards")
           (Some [ (lit "cards", ids_value [11; 12; 13]%Z) ])
           [made (suspend (ids_value [11; 12; 13]%Z))]).
  vm_compute. reflexivity.
Defined.

(** X8.  Whatever the tool, the arguments and the backend, one call of the
    handler makes at most two backend calls. *)
Theorem callTool_at_most_two_calls :
  forall {engine : Engine} (b : Backend) (name : str) (args : option Args),
    List.length (fst (run b (callTool name args))) <= 2.
Proof.
  intros engine b name [args|]; [|cbn; lia].
  rewrite Dispatch.run_callTool.
  destruct (run b (dispatch name args)) as [calls out] eqn:Hrun.
  destruct (Behaviour.behaves_run _ _ b _ 2 [] calls out
              (AnyArguments.dispatch_behaves name args) Hrun) as [Hlen _].
  destruct out; cbn in *; lia.
Qed.

(* ===================================================================== *)
(** ** The catalogue and the switch *)
(* ===================================================================== *)

Module Listed.

Lemma str_eqb_eq (a b : str) : str_eqb a b = true <-> a = b.
Proof.
  revert b. induction a as [|x a IH]; intros [|y b]; cbn;
    try (split; [discriminate|discriminate]); [tauto|].
  rewrite andb_true_iff, IH. unfold char_eqb. rewrite N.eqb_eq.
  split; [intros [-> ->]; reflexivity|intros H; injection H; auto].
Qed.

Lemma names_agree {engine : Engine} :
  List.map Catalog.name Catalog.tools = List.map fst cases.
Proof. reflexivity. Qed.

Lemma names_distinct : NoDup (List.map Catalog.name Catalog.tools).
Proof.
  cbv -[N.eqb]. 
  repeat (constructor; [cbn; intuition discriminate|]). constructor.
Qed.

(** The first case of a name is the case [find] finds. *)
Lemma find_case {engine : Engine} (name : str) :
  In name (List.map fst cases) ->
  exists body, find (fun c => str_eqb name (fst c)) cases = Some (name, body).
Proof.
  generalize cases as l. induction l as [|[label body] l IH]; intros Hin;
    [destruct Hin|].
  cbn [find fst]. destruct (str_eqb name label) eqn:E.
  - apply str_eqb_eq in E. subst label. now exists body.
  - destruct Hin as [Heq|Hin]; [|exact (IH Hin)].
    cbn in Heq. subst label.
    rewrite (proj2 (str_eqb_eq name name) eq_refl) in E. discriminate.
Qed.

End Listed.

(** X9.  The tools the catalogue lists are the names the switch has a case
    for: a listed name is dispatched to a case of that name, and only a
    listed name is. *)
Theorem listed_tools_are_the_cases :
  forall {engine : Engine} (name : str),
    In name (List.map Catalog.name Catalog.tools)
    <-> exists body : Args -> Prog ToolResult,
          find (fun c => str_eqb name (fst c)) cases = Some (name, body).
Proof.
  intros engine name. rewrite Listed.names_agree. split.
  - apply Listed.find_case.
  - intros [body H]. apply find_some in H. destruct H as [Hin _].
    apply in_map_iff. now exists (name, body).
Qed.

(** X10.  A tool name the catalogue does not list is answered with the
    error of the unknown tool, wrapped, and the backend is not called. *)
Theorem callTool_unlisted_tool :
  forall {engine : Engine} (b : Backend) (name : str) (args : Args),
    ~ In name (List.map Catalog.name Catalog.tools) ->
    run b (callTool name (Some args))
    = ([], inl (Error (lit "Error in tool " ++ name ++ lit ": "
                         ++ lit "Unknown tool: " ++ name))).
Proof.
  intros engine b name args Hname. apply Dispatch.run_callTool_unknown.
  destruct (find (fun c => str_eqb name (fst c)) cases) as [[label body]|] eqn:E;
    [exfalso|reflexivity].
  apply find_some in E. destruct E as [Hin Heq]. cbn in Heq.
  apply Listed.str_eqb_eq in Heq. subst label. apply Hname.
  rewrite Listed.names_agree. apply in_map_iff. now exists (name, body).
Qed.

Lemma callTool_unlisted_tool_witness :
  run Examples.deck
    (callTool (engine := Examples.simple) (lit "shuffle_deck") (Some []))
  = ([], inl (Error (lit "Error in tool " ++ lit "shuffle_deck" ++ lit ": "
                       ++ lit "Unknown tool: " ++ lit "shuffle_deck"))).
Proof.
  apply (callTool_unlisted_tool (engine := Examples.simple) Examples.deck
           (lit "shuffle_deck") []).
  vm_compute. intuition discriminate.
Defined.

Module Paired.

(** What holds of every listed tool together with the case of the same
    position holds of every listed tool and the case it is dispatched to. *)
Lemma listed_case {engine : Engine}
      (R : Catalog.Tool -> (Args -> Prog ToolResult) -> Prop) :
  Forall (fun tc => R (fst tc) (snd (snd tc))) (combine Catalog.tools cases) ->
  forall t, In t Catalog.tools ->
    exists body, R t body
                 /\ forall args, dispatch (Catalog.name t) args = body args.
Proof.
  intros HF t Hin. rewrite Forall_forall in HF.
  repeat (destruct Hin as [<-|Hin];
          [eexists; split;
           [refine (HF (_, (_, _)) _);
            repeat first [left; reflexivity|right]
           |reflexivity]
          |]).
  destruct Hin.
Qed.

Ltac bodies :=
  unfold update_cards, add_card, get_due_cards, get_new_cards, get_cards,
    list_decks, list_decks_with_ids, create_deck, delete_decks, get_deck_stats,
    move_cards_to_deck, get_cards_info, suspend_cards, unsuspend_cards,
    forget_cards, on_cards, check_suspended_status, check_due_status,
    get_ease_factors, ask_cards, set_ease_factors, get_all_cards_in_deck.

(** A case reads the arguments its tool declares, and no other. *)
Lemma cases_read_declared {engine : Engine} :
  Forall (fun tc =>
            forall args args' : Args,
              (forall p, In p (Catalog.declared (fst tc)) ->
                         lookup p args = lookup p args') ->
              snd (snd tc) args = snd (snd tc) args')
         (combine Catalog.tools cases).
Proof.
  unfold Catalog.tools, cases. cbn [combine].
  repeat (apply Forall_cons;
          [intros args args' H; cbn [fst snd]; bodies;
           repeat match goal with
             | |- context [lookup ?p args] =>
                 rewrite (H p) by (repeat first [left; reflexivity|right])
             end;
           reflexivity
          |]).
  apply Forall_nil.
Qed.

End Paired.

(** X11.  A listed tool reads only the arguments its schema declares: two
    argument bags that agree on them are treated alike. *)
Theorem dispatch_reads_declared_arguments :
  forall {engine : Engine} (t : Catalog.Tool) (args args' : Args),
    In t Catalog.tools ->
    (forall p, In p (Catalog.declared t) -> lookup p args = lookup p args') ->
    callTool (Catalog.name t) (Some args) = callTool (Catalog.name t) (Some args').
Proof.
  intros engine t args args' Hin Hagree.
  destruct (Paired.listed_case
              (fun t body =>
                 forall args args' : Args,
                   (forall p, In p (Catalog.declared t) ->
                              lookup p args = lookup p args') ->
                   body args = body args')
              Paired.cases_read_declared t Hin)
    as (body & Hbody & Hdispatch).
  unfold callTool. rewrite !Hdispatch. now rewrite (Hbody args args' Hagree).
Qed.

Lemma dispatch_reads_declared_arguments_witness :
  callTool (engine := Examples.simple) (lit "get_due_cards")
    (Some [ (lit "num", JNum (of_Z 2)); (lit "deck", JStr (lit "Default")) ])
  = callTool (engine := Examples.simple) (lit "get_due_cards")
      (Some [ (lit "verbose", JBool true); (lit "num", JNum (of_Z 2)) ]).
Proof.
  apply (dispatch_reads_declared_arguments (engine := Examples.simple)
           {| Catalog.name := lit "get_due_cards";
              Catalog.description :=
                lit "Returns a given number (num) of cards due for review.";
              Catalog.inputSchema :=
                Catalog.object_
                  [ (lit "num",
                     Catalog.number_
                       (Catalog.described "Number of due cards to get")) ]
                  (Some [lit "num"]) |}).
  - right. right. left. reflexivity.
  - intros p [<-|[]]. reflexivity.
Defined.

Module Fitting.

Import Behaviour.

Lemma filter_index_incl {A : Type} (keep : nat -> bool) (a : list A) (x : A) :
  forall n, In x (filter_index keep n a) -> In x a.
Proof.
  induction a as [|y a IH]; intros n; cbn; [tauto|].
  destruct (keep n); cbn; intros H; [destruct H as [H|H]|]; eauto.
Qed.

(** Reading a property of an item of an array of objects does not
    throw. *)
Lemma objects_read {engine : Engine} (properties : list (str * Catalog.Schema))
      (required : option (list str)) (items : list JsVal)
      (keep : nat -> bool) (n : nat) (card : JsVal) (p : str) (e : Thrown) :
  forallb (conforms (Catalog.object_ properties required)) items = true ->
  In card (filter_index keep n items) ->
  get card p = inl e ->
  False.
Proof.
  intros Hitems Hin Hget. apply filter_index_incl in Hin.
  rewrite forallb_forall in Hitems. specialize (Hitems card Hin).
  destruct card; cbn in Hitems; try discriminate Hitems.
  cbn in Hget. discriminate Hget.
Qed.

Ltac shape args Hconf Hpres :=
  repeat match goal with
    | |- context [lookup ?p args] =>
        let E := fresh "E" in
        destruct (lookup p args) eqn:E;
        try rewrite E in Hconf;
        cbn -[lit lookup] in Hconf;
        rewrite ?andb_true_r, ?andb_false_r in Hconf;
        try discriminate Hconf;
        try (exfalso; apply (Hpres p);
             [repeat first [left; reflexivity|right]|exact E])
    end.

Ltac walk :=
  repeat first
    [ exact I
    | apply then_await; intros ?
    | apply then_query; intros ?
    | apply then_lift; [intros ? ?|intros ? ?]
    | apply cardIds_behave; intros ? ? ? ?
    | apply (then_pure _ (fun _ => True)); [|intros ? _]
    | match goal with
      | H : _ = inl _ |- _ => solve [cbn in H; discriminate H]
      | |- behaves _ _ _ (if ?c then _ else _) => destruct c
      | |- behaves _ single_text _ (Ret _) => eexists; reflexivity
      | |- behaves deliberate _ _ (Throw _) =>
          first [left; reflexivity|right; eexists; reflexivity]
      end ].

(** update_cards with an array of objects for answers. *)
Lemma update_cards_fit {engine : Engine} (args : Args) (items : list JsVal) :
  lookup (lit "answers") args = JArr items ->
  (forall v p e, In v items -> get v p = inl e -> False) ->
  behaves deliberate single_text 2 (update_cards args).
Proof.
  intros Hanswers Hobj. unfold update_cards. rewrite Hanswers.
  AnyArguments.expose. apply then_await. intros result.
  apply (then_pure _ (fun a => incl a items)).
  { apply then_lift; [intros e He; discriminate He|].
    intros its Hits. injection Hits as <-. intros v. apply filter_index_incl. }
  intros succeeded Hsucceeded.
  apply (then_pure _ (fun _ => True)).
  { apply cardIds_behave. intros card e Hin Hget.
    destruct (Hobj card _ e (Hsucceeded card Hin) Hget). }
  intros successfulCards _.
  apply (then_pure _ (fun a => incl a items)).
  { apply then_lift; [intros e He; discriminate He|].
    intros its Hits. injection Hits as <-. intros v. apply filter_index_incl. }
  intros failedCards Hfailed.
  destruct (0 <? List.length failedCards)%nat.
  - apply (then_pure _ (fun _ => True)).
    + apply cardIds_behave. intros card e Hin Hget.
      destruct (Hobj card _ e (Hfailed card Hin) Hget).
    + intros failedCardIds _. right. eexists. reflexivity.
  - eexists. reflexivity.
Qed.

(** With arguments that fit the schema, a case throws of its own only
    one of the two deliberate errors. *)
Lemma cases_fit {engine : Engine} :
  Forall (fun tc =>
            forall args : Args,
              fits (fst tc) args ->
              behaves deliberate single_text 2 (snd (snd tc) args))
         (combine Catalog.tools cases).
Proof.
  unfold Catalog.tools, cases. cbn [combine].
  apply Forall_cons.
  { intros args [Hconf Hpres]. cbn [fst snd] in *.
    cbn -[lit lookup] in Hconf, Hpres.
    destruct (lookup (lit "answers") args) as [| | | | |items|] eqn:E;
      try discriminate Hconf;
      [exfalso; apply (Hpres (lit "answers")); [now left|exact E]|].
    apply (update_cards_fit args items E).
    apply andb_prop in Hconf. destruct Hconf as [Hconf _].
    apply andb_prop in Hconf. destruct Hconf as [Hconf _].
    rewrite forallb_forall in Hconf. intros v p e Hv Hget.
    specialize (Hconf v Hv). destruct v; try discriminate Hconf.
    discriminate Hget. }
  repeat (apply Forall_cons;
          [intros args [Hconf Hpres]; cbn [fst snd] in *;
           cbn -[lit lookup] in Hconf, Hpres;
           AnyArguments.expose; shape args Hconf Hpres; walk
          |]).
  apply Forall_nil.
Qed.

End Fitting.

(** X12.  With arguments that fit the schema of a listed tool, all the
    declared ones there, the handler fails only with a rejection of the
    backend or with one of the two errors the cases throw deliberately
    (failed cards, arrays of different lengths), wrapped: reading the
    arguments raises no TypeError. *)
Theorem callTool_fitting_arguments :
  forall {engine : Engine} (b : Backend) (t : Catalog.Tool) (args : Args)
         (calls : list Made) (error : Thrown),
    In t Catalog.tools ->
    fits t args ->
    run b (callTool (Catalog.name t) (Some args)) = (calls, inl error) ->
    exists underlying : Thrown,
      error = wrapped (Catalog.name t) underlying
      /\ (deliberate underlying \/ backend_threw b underlying).
Proof.
  intros engine b t args calls error Hin Hfits.
  destruct (Paired.listed_case
              (fun t body =>
                 forall args : Args,
                   fits t args -> behaves deliberate single_text 2 (body args))
              Fitting.cases_fit t Hin)
    as (body & Hbody & Hdispatch).
  rewrite Dispatch.run_callTool, Hdispatch.
  destruct (run b (body args)) as [calls' [e|r]] eqn:Hrun; [|discriminate].
  intros H. injection H as <- <-. exists e. split; [reflexivity|].
  exact (proj2 (Behaviour.behaves_run _ _ b _ 2 [] calls' (inl e)
                  (Hbody args Hfits) Hrun)).
Qed.

Lemma callTool_fitting_arguments_witness :
  fits MoreExamples.ease_tool
    [ (lit "cards", ids_value [11; 12; 13]%Z);
      (lit "easeFactors", ids_value [2500; 1300]%Z) ]
  /\ run Examples.deck
       (callTool (engine := Examples.simple) (lit "set_ease_factors")
          (Some [ (lit "cards", ids_value [11; 12; 13]%Z);
                  (lit "easeFactors", ids_value [2500; 1300]%Z) ]))
     = ([], inl (Error (lit "Error in tool set_ease_factors: Cards and easeFactors arrays must have the same length")))
  /\ exists underlying : Thrown,
       Error (lit "Error in tool set_ease_factors: Cards and easeFactors arrays must have the same length")
       = wrapped (engine := Examples.simple) (lit "set_ease_factors") underlying
       /\ (deliberate underlying \/ backend_threw Examples.deck underlying).
Proof.
  assert (Hfits : fits MoreExamples.ease_tool
                    [ (lit "cards", ids_value [11; 12; 13]%Z);
                      (lit "easeFactors", ids_value [2500; 1300]%Z) ]).
  { split; [reflexivity|].
    intros p [<-|[<-|[]]]; discriminate. }
  split; [exact Hfits|]. split; [reflexivity|].
  apply (callTool_fitting_arguments (engine := Examples.simple) Examples.deck
           MoreExamples.ease_tool
           [ (lit "cards", ids_value [11; 12; 13]%Z);
             (lit "easeFactors", ids_value [2500; 1300]%Z) ]
           []).
  - do 17 right. left. reflexivity.
  - exact Hfits.
  - reflexivity.
Defined.

(* ===================================================================== *)
(** ** More about the cases of the switch *)
(* ===================================================================== *)

Module CardLists.

Import Running.

Lemma run_get_cards {engine : Engine} (b : Backend) (query : str) (args : Args) :
  run b (get_cards query args) =
  match run b (findCardsAndOrder query) with
  | (calls, inr cards) =>
      (calls,
       inr (text_result
              (JSON_stringify
                 (cards_value
                    (slice (of_Z 0) (ToNumber (lookup (lit "num") args)) cards)))))
  | (calls, inl error) => (calls, inl error)
  end.
Proof.
  unfold get_cards, run. cbn [bind Monad_Prog]. rewrite run_from_then.
  destruct (run_from b [] (findCardsAndOrder query)) as [calls [e|cards]];
    reflexivity.
Qed.

Lemma dispatch_card_list {engine : Engine} (name query : str) (args : Args) :
  In (name, query) card_lists -> dispatch name args = get_cards query args.
Proof.
  intros [H|[H|[]]]; injection H as <- <-; reflexivity.
Qed.

(** [a.slice(0, n)] for a whole number [n]. *)
Lemma slice_whole {A : Type} (n : Z) (a : list A) :
  slice (of_Z 0) (of_Z n) a
  = if (n <? 0)%Z then firstn (List.length a - Z.to_nat (- n)) a
    else firstn (Z.to_nat n) a.
Proof.
  unfold slice. cbn [ToIntegerOrInfinity of_Z inject_Z Qnum Qden].
  rewrite Z.quot_1_r. change (Z.quot 0 1) with 0%Z.
  cbn [relative_index]. change (0 <? 0)%Z with false. cbv iota.
  rewrite (Z.min_l 0 (Z.of_nat (List.length a))) by lia.
  cbn [Z.to_nat skipn]. rewrite Z.sub_0_r.
  destruct (Z.ltb_spec n 0).
  - f_equal. lia.
  - destruct (Z.le_gt_cases n (Z.of_nat (List.length a))).
    + f_equal. lia.
    + rewrite Z.min_r by lia. rewrite Nat2Z.id.
      rewrite !firstn_all2; [reflexivity|lia|lia].
Qed.

(** [a.slice(0, end)] is a start of [a], whatever [end] is. *)
Lemma slice_start {A : Type} (num : number) (a : list A) :
  exists m, slice (of_Z 0) num a = firstn m a.
Proof.
  unfold slice. cbn [ToIntegerOrInfinity of_Z inject_Z Qnum Qden].
  change (Z.quot 0 1) with 0%Z. cbn [relative_index].
  change (0 <? 0)%Z with false. cbv iota.
  rewrite (Z.min_l 0 (Z.of_nat (List.length a))) by lia.
  cbn [Z.to_nat skipn]. eexists. reflexivity.
Qed.

Lemma sorted_app (a b : list Card) :
  StronglySorted due_le (a ++ b) ->
  forall x y, In x a -> In y b -> due_le x y.
Proof.
  induction a as [|z a IH]; intros Hs x y Hx Hy; [destruct Hx|].
  cbn in Hs. apply StronglySorted_inv in Hs. destruct Hs as [Hs Hz].
  destruct Hx as [->|Hx]; [|exact (IH Hs x y Hx Hy)].
  rewrite Forall_forall in Hz. apply Hz. apply in_or_app. now right.
Qed.

End CardLists.

(** X13.  get_due_cards and get_new_cards with a whole number [num] that
    is not negative answer with the first [num] cards of the query in due
    order, with all of them when there are fewer; a failure of the query is
    wrapped. *)
Theorem get_cards_first :
  forall {engine : Engine} (b : Backend) (name query : str) (args : Args)
         (n : Z),
    In (name, query) card_lists ->
    lookup (lit "num") args = JNum (of_Z n) ->
    (0 <= n)%Z ->
    run b (callTool name (Some args)) =
    match run b (findCardsAndOrder query) with
    | (calls, inr cards) =>
        (calls,
         inr (text_result
                (JSON_stringify (cards_value (firstn (Z.to_nat n) cards)))))
    | (calls, inl error) => (calls, inl (wrapped name error))
    end.
Proof.
  intros engine b name query args n Hin Hnum Hn.
  rewrite Dispatch.run_callTool, (CardLists.dispatch_card_list name query args Hin).
  rewrite CardLists.run_get_cards, Hnum. cbn [ToNumber].
  destruct (run b (findCardsAndOrder query)) as [calls [e|cards]];
    [reflexivity|].
  rewrite CardLists.slice_whole. destruct (Z.ltb_spec n 0); [lia|reflexivity].
Qed.

Lemma get_cards_first_witness :
  run Examples.deck
    (callTool (engine := Examples.simple) (lit "get_due_cards")
       (Some [ (lit "num", JNum (of_Z 1)) ]))
  = match run Examples.deck (findCardsAndOrder (lit "is:due")) with
    | (calls, inr cards) =>
        (calls,
         inr (text_result
                (JSON_stringify (engine := Examples.simple)
                   (cards_value (firstn (Z.to_nat 1) cards)))))
    | (calls, inl error) =>
        (calls, inl (wrapped (engine := Examples.simple) (lit "get_due_cards") error))
    end.
Proof.
  apply (get_cards_first (engine := Examples.simple) Examples.deck
           (lit "get_due_cards") (lit "is:due") _ 1).
  - left. reflexivity.
  - reflexivity.
  - lia.
Defined.

(** X14.  With a negative whole number [num], get_due_cards and
    get_new_cards do not fail: they answer with all the cards of the query
    but the last [-num]. *)
Theorem get_cards_negative :
  forall {engine : Engine} (b : Backend) (name query : str) (args : Args)
         (n : Z),
    In (name, query) card_lists ->
    lookup (lit "num") args = JNum (of_Z n) ->
    (n < 0)%Z ->
    run b (callTool name (Some args)) =
    match run b (findCardsAndOrder query) with
    | (calls, inr cards) =>
        (calls,
         inr (text_result
                (JSON_stringify
                   (cards_value
                      (firstn (List.length cards - Z.to_nat (- n)) cards)))))
    | (calls, inl error) => (calls, inl (wrapped name error))
    end.
Proof.
  intros engine b name query args n Hin Hnum Hn.
  rewrite Dispatch.run_callTool, (CardLists.dispatch_card_list name query args Hin).
  rewrite CardLists.run_get_cards, Hnum. cbn [ToNumber].
  destruct (run b (findCardsAndOrder query)) as [calls [e|cards]];
    [reflexivity|].
  rewrite CardLists.slice_whole. destruct (Z.ltb_spec n 0); [reflexivity|lia].
Qed.

Lemma get_cards_negative_witness :
  run Examples.deck
    (callTool (engine := Examples.simple) (lit "get_due_cards")
       (Some [ (lit "num", JNum (of_Z (-1))) ]))
  = match run Examples.deck (findCardsAndOrder (lit "is:due")) with
    | (calls, inr cards) =>
        (calls,
         inr (text_result
                (JSON_stringify (engine := Examples.simple)
                   (cards_value
                      (firstn (List.length cards - Z.to_nat (- (-1))) cards)))))
    | (calls, inl error) =>
        (calls, inl (wrapped (engine := Examples.simple) (lit "get_due_cards") error))
    end.
Proof.
  apply (get_cards_negative (engine := Examples.simple) Examples.deck
           (lit "get_due_cards") (lit "is:due") _ (-1)).
  - left. reflexivity.
  - reflexivity.
  - lia.
Defined.

(** X15.  Whatever [num] is, the cards get_due_cards and get_new_cards
    keep ([cards.slice(0, num)]) are a start of the ordered list: each card
    kept is due no later than each card left out. *)
Theorem get_cards_keeps_soonest :
  forall (b : Backend) (query : str) (calls : list Made) (cards : list Card)
         (num : number) (kept left_out : Card),
    run b (findCardsAndOrder query) = (calls, inr cards) ->
    In kept (slice (of_Z 0) num cards) ->
    In left_out (skipn (List.length (slice (of_Z 0) num cards)) cards) ->
    (due kept <= due left_out)%Z.
Proof.
  intros b query calls cards num kept left_out Hrun Hkept Hleft.
  apply Query.returns_sorted in Hrun.
  destruct (CardLists.slice_start num cards) as [m Hm]. rewrite Hm in *.
  rewrite length_firstn in Hleft.
  assert (Hskip : In left_out (skipn m cards)).
  { destruct (Nat.le_gt_cases m (List.length cards)).
    - now rewrite Nat.min_l in Hleft by lia.
    - rewrite Nat.min_r in Hleft by lia. rewrite skipn_all in Hleft.
      destruct Hleft. }
  rewrite <- (firstn_skipn m cards) in Hrun.
  exact (CardLists.sorted_app _ _ Hrun kept left_out Hkept Hskip).
Qed.

Lemma get_cards_keeps_soonest_witness :
  (due (to_card (Examples.info 12 "two" "2" 3))
   <= due (to_card (Examples.info 13 "three" "3" 7)))%Z.
Proof.
  apply (get_cards_keeps_soonest Examples.deck (lit "is:due")
           [made (findCards (lit "is:due"));
            made (cardsInfo (ids_value [11; 12; 13]%Z))]
           (List.map to_card
              [ Examples.info 12 "two" "2" 3;
                Examples.info 11 "<b>one</b>" "1" 7;
                Examples.info 13 "three" "3" 7 ])
           (of_Z 1)
           (to_card (Examples.info 12 "two" "2" 3))
           (to_card (Examples.info 13 "three" "3" 7))).
  - vm_compute. reflexivity.
  - vm_compute. tauto.
  - vm_compute. tauto.
Defined.

Module Cases.

Import Running.


Lemma dispatch_card_action {engine : Engine} (name : str)
      (call : JsVal -> Call JsVal) (before after : str) (args : Args) :
  In (name, call, before, after) card_actions ->
  dispatch name args = on_cards call before after args.
Proof.
  intros [H|[H|[H|[]]]]; injection H as <- <- <- <-; reflexivity.
Qed.

Lemma run_on_cards {engine : Engine} (b : Backend)
      (call : JsVal -> Call JsVal) (before after : str) (args : Args) :
  let cardIds := lookup (lit "cards") args in
  run b (on_cards call before after args) =
  ([made (call cardIds)],
   match b _ [] (call cardIds) with
   | inl e => inl e
   | inr _ =>
       match get cardIds (lit "length") with
       | inl e => inl e
       | inr n =>
           match array_method cardIds (lit "join") with
           | inl e => inl e
           | inr items =>
               inr (text_result
                      (Some (before ++ ToString n ++ after
                               ++ join (lit ", ") (List.map join_item items))))
           end
       end
   end).
Proof.
  unfold on_cards, run, length_of, join_of. cbn.
  destruct (b _ [] (call _)) as [e|v]; cbn; [reflexivity|].
  destruct (get _ _) as [e|n]; cbn; [reflexivity|].
  destruct (array_method _ _) as [e|items]; reflexivity.
Qed.

End Cases.







(** X19.  suspend_cards, unsuspend_cards and forget_cards call the
    backend before they look at their argument: without [cards] the backend
    is called with undefined, and only when that call is not rejected does
    the missing argument fail the tool, with a TypeError. *)
Theorem card_action_without_cards :
  forall {engine : Engine} (b : Backend) (name : str)
         (call : JsVal -> Call JsVal) (before after : str) (args : Args)
         (answer : JsVal),
    In (name, call, before, after) card_actions ->
    lookup (lit "cards") args = JUndefined ->
    b _ [] (call JUndefined) = inr answer ->
    run b (callTool name (Some args))
    = ([made (call JUndefined)],
       inl (wrapped name
              (TypeError (ReadOfNullish JUndefined (lit "length"))))).
Proof.
  intros engine b name call before after args answer Hin Hcards Hb.
  rewrite Dispatch.run_callTool,
    (Cases.dispatch_card_action name call before after args Hin).
  rewrite Cases.run_on_cards, Hcards, Hb. reflexivity.
Qed.

Lemma card_action_without_cards_witness :
  run MoreExamples.forgetful
    (callTool (engine := Examples.simple) (lit "forget_cards") (Some []))
  = ([made (forgetCards JUndefined)],
     inl (Error (lit "Error in tool forget_cards: Cannot read properties of undefined (reading 'length')"))).
Proof.
  apply (card_action_without_cards (engine := Examples.simple)
           MoreExamples.forgetful (lit "forget_cards") forgetCards
           (lit "Reset ") (lit " cards to new status: ") [] (JBool false)).
  - right. right. left. reflexivity.
  - reflexivity.
  - reflexivity.
Defined.

Module MoreCases.

Import Running.

Lemma run_set_ease_factors {engine : Engine} (b : Backend) (args : Args) :
  let cardIds := lookup (lit "cards") args in
  let easeFactors := lookup (lit "easeFactors") args in
  run b (set_ease_factors args) =
  match get cardIds (lit "length"), get easeFactors (lit "length") with
  | inl e, _ => ([], inl e)
  | inr _, inl e => ([], inl e)
  | inr n, inr m =>
      if strict_eqb n m then
        ([made (setEaseFactors cardIds easeFactors)],
         match b _ [] (setEaseFactors cardIds easeFactors) with
         | inl e => inl e
         | inr _ =>
             inr (text_result
                    (Some (lit "Set ease factors for " ++ ToString n
                             ++ lit " cards")))
         end)
      else
        ([], inl (Error (lit "Cards and easeFactors arrays must have the same length")))
  end.
Proof.
  unfold set_ease_factors, run, length_of.
  cbn [bind ret raise Monad_Prog Exc_Prog].
  destruct (get (lookup (lit "cards") args) (lit "length")) as [e|n] eqn:En;
    cbn [lift then_ run_from]; [reflexivity|].
  destruct (get (lookup (lit "easeFactors") args) (lit "length")) as [e|m];
    cbn [lift then_ run_from]; [reflexivity|].
  destruct (strict_eqb n m); cbn [negb]; [|reflexivity].
  rewrite run_from_then, run_from_await.
  destruct (b _ [] (setEaseFactors _ _)) as [e|v]; reflexivity.
Qed.




End MoreCases.

(** X20.  set_ease_factors compares the [length] properties and nothing
    else: for two values without a length, such as two numbers, the check
    passes, the backend is called with them, and the reply counts
    "undefined" cards. *)
Theorem set_ease_factors_without_lengths :
  forall {engine : Engine} (b : Backend) (args : Args) (x y : number)
         (answer : JsVal),
    lookup (lit "cards") args = JNum x ->
    lookup (lit "easeFactors") args = JNum y ->
    b _ [] (setEaseFactors (JNum x) (JNum y)) = inr answer ->
    run b (callTool (lit "set_ease_factors") (Some args))
    = ([made (setEaseFactors (JNum x) (JNum y))],
       inr (text_result (Some (lit "Set ease factors for undefined cards")))).
Proof.
  intros engine b args x y answer Hc He Hb.
  rewrite Dispatch.run_callTool.
  change (dispatch (lit "set_ease_factors") args) with (set_ease_factors args).
  rewrite MoreCases.run_set_ease_factors. cbv zeta. rewrite Hc, He. cbn.
  rewrite Hb. reflexivity.
Qed.

Lemma set_ease_factors_without_lengths_witness :
  run MoreExamples.forgetful
    (callTool (engine := Examples.simple) (lit "set_ease_factors")
       (Some [ (lit "cards", JNum (of_Z 11));
               (lit "easeFactors", JNum (of_Z 2500)) ]))
  = ([made (setEaseFactors (JNum (of_Z 11)) (JNum (of_Z 2500)))],
     inr (text_result (Some (lit "Set ease factors for undefined cards")))).
Proof.
  apply (set_ease_factors_without_lengths (engine := Examples.simple)
           MoreExamples.forgetful _ (of_Z 11) (of_Z 2500) (JBool false)).
  - reflexivity.
  - reflexivity.
  - reflexivity.
Defined.

(** X21.  set_ease_factors with two arrays of the same length makes one
    call and, whatever the backend answers for the single cards, replies
    with the number of cards. *)
Theorem set_ease_factors_same_length :
  forall {engine : Engine} (b : Backend) (args : Args)
         (cards easeFactors : list JsVal) (answer : JsVal),
    lookup (lit "cards") args = JArr cards ->
    lookup (lit "easeFactors") args = JArr easeFactors ->
    List.length cards = List.length easeFactors ->
    b _ [] (setEaseFactors (JArr cards) (JArr easeFactors)) = inr answer ->
    run b (callTool (lit "set_ease_factors") (Some args))
    = ([made (setEaseFactors (JArr cards) (JArr easeFactors))],
       inr (text_result
              (Some (lit "Set ease factors for "
                       ++ NumberToString (of_nat (List.length cards))
                       ++ lit " cards")))).
Proof.
  intros engine b args cards easeFactors answer Hc He Hlen Hb.
  rewrite Dispatch.run_callTool.
  change (dispatch (lit "set_ease_factors") args) with (set_ease_factors args).
  rewrite MoreCases.run_set_ease_factors. cbv zeta. rewrite Hc, He.
  rewrite !Dispatch.get_array_length. cbn [strict_eqb].
  rewrite Dispatch.number_eqb_of_nat, Hlen, Nat.eqb_refl, Hb. reflexivity.
Qed.

Lemma set_ease_factors_same_length_witness :
  run MoreExamples.forgetful
    (callTool (engine := Examples.simple) (lit "set_ease_factors")
       (Some [ (lit "cards", ids_value [11; 12]%Z);
               (lit "easeFactors", ids_value [2500; 1300]%Z) ]))
  = ([made (setEaseFactors (ids_value [11; 12]%Z) (ids_value [2500; 1300]%Z))],
     inr (text_result (Some (lit "Set ease factors for 2 cards")))).
Proof.
  apply (set_ease_factors_same_length (engine := Examples.simple)
           MoreExamples.forgetful _
           (List.map (fun id => JNum (of_Z id)) [11; 12]%Z)
           (List.map (fun id => JNum (of_Z id)) [2500; 1300]%Z) (JBool false)).
  - reflexivity.
  - reflexivity.
  - reflexivity.
  - reflexivity.
Defined.



(** X23.  create_deck does not check its argument: without [deck] the
    backend is asked to create the deck named "undefined", and the reply
    reports it as created. *)
Theorem create_deck_without_name :
  forall {engine : Engine} (b : Backend) (args : Args) (id : JsVal),
    lookup (lit "deck") args = JUndefined ->
    b _ [] (createDeck (lit "undefined")) = inr id ->
    run b (callTool (lit "create_deck") (Some args))
    = ([made (createDeck (lit "undefined"))],
       inr (text_result
              (Some (lit "Created deck " ++ [34%N] ++ lit "undefined" ++ [34%N]
                       ++ lit " with ID: " ++ ToString id)))).
Proof.
  intros engine b args id Hdeck Hb.
  rewrite Dispatch.run_callTool.
  change (dispatch (lit "create_deck") args) with (create_deck args).
  unfold create_deck, run. rewrite Hdeck.
  cbn [bind Monad_Prog ToString].
  rewrite Running.run_from_then, Running.run_from_await, Hb. reflexivity.
Qed.

Lemma create_deck_without_name_witness :
  run MoreExamples.forgetful
    (callTool (engine := Examples.simple) (lit "create_deck") (Some []))
  = ([made (createDeck (lit "undefined"))],
     inr (text_result
            (Some (lit "Created deck " ++ [34%N] ++ lit "undefined" ++ [34%N]
                     ++ lit " with ID: " ++ lit "false")))).
Proof.
  apply (create_deck_without_name (engine := Examples.simple)
           MoreExamples.forgetful [] (JBool false)).
  - reflexivity.
  - reflexivity.
Defined.

(** X24.  delete_decks asks the backend once to delete, always with the
    cards of the decks, and before it looks at the names: the call is made
    whatever [decks] is, also when the reply will be an error. *)
Theorem delete_decks_always_calls :
  forall {engine : Engine} (b : Backend) (args : Args),
    fst (run b (callTool (lit "delete_decks") (Some args)))
    = [made (deleteDecks (lookup (lit "decks") args) true)].
Proof.
  intros engine b args. rewrite Dispatch.run_callTool.
  change (dispatch (lit "delete_decks") args) with (delete_decks args).
  unfold delete_decks, run, join_of. cbn [bind ret Monad_Prog].
  rewrite Running.run_from_then, Running.run_from_await.
  destruct (b _ [] (deleteDecks _ true)) as [e|v]; [reflexivity|].
  cbn [app]. destruct (array_method _ _) as [e|items]; reflexivity.
Qed.

(* ===================================================================== *)
(** ** Reading a resource *)
(* ===================================================================== *)

Module Reading.

Import Running Resource.

Lemma two_segments (sep : char) (a b : str) :
  exists x y l, split sep (a ++ sep :: b) = x :: y :: l.
Proof.
  induction a as [|c a (x & y & l & IH)]; cbn.
  - rewrite (proj2 (Lines.char_eqb_eq sep sep) eq_refl).
    destruct (split sep b) as [|y l] eqn:E; [now apply Lines.split_nonempty in E|].
    now exists [], y, l.
  - rewrite IH. destruct (char_eqb c sep); eauto.
Qed.

(** The last segment of a path is what follows its last separator. *)
Lemma pop_split (sep : char) (a b : str) :
  pop (split sep (a ++ sep :: b)) = pop (split sep b).
Proof.
  induction a as [|c a IH]; cbn [app split].
  - rewrite (proj2 (Lines.char_eqb_eq sep sep) eq_refl).
    destruct (split sep b) as [|y l] eqn:E; [now apply Lines.split_nonempty in E|].
    reflexivity.
  - destruct (two_segments sep a b) as (x & y & l & E).
    rewrite E in *. destruct (char_eqb c sep); exact IH.
Qed.

Lemma pop_last_segment (dir segment : str) :
  ~ In 47%N segment ->
  pop (split 47%N (dir ++ lit "/" ++ segment)) = Some segment.
Proof.
  intros Hfree. change (dir ++ lit "/" ++ segment) with (dir ++ 47%N :: segment).
  rewrite pop_split, (Lines.split_one _ _ Hfree). reflexivity.
Qed.

Lemma pop_no_segment (dir : str) :
  pop (split 47%N (dir ++ lit "/")) = Some [].
Proof.
  change (dir ++ lit "/") with (dir ++ 47%N :: []). now rewrite pop_split.
Qed.

Section WithPlatform.

Context {engine : Engine} {web : Web}.

(** The runs of [readResource] once the last segment of the path is
    known and not empty. *)
Lemma run_readResource (b : Backend) (requested path : str)
      (c : char) (segment : str) :
  URL_pathname requested = inr path ->
  pop (split 47%N path) = Some (c :: segment) ->
  run b (readResource requested) =
  match decodeURIComponent (c :: segment) with
  | inl e => ([], inl e)
  | inr query =>
      match run b (findCardsAndOrder query) with
      | (calls, inr cards) =>
          (calls,
           inr {| contents :=
                    [ {| uri := requested;
                         mimeType := lit "application/json";
                         text := JSON_stringify (cards_value cards) |} ] |})
      | (calls, inl e) => (calls, inl e)
      end
  end.
Proof.
  intros Hpath Hpop. unfold readResource, run. rewrite Hpath.
  cbn [lift bind Monad_Prog then_]. rewrite Hpop.
  destruct (decodeURIComponent (c :: segment)) as [e|query];
    cbn [lift bind Monad_Prog then_ run_from]; [reflexivity|].
  rewrite run_from_then.
  destruct (run_from b [] (findCardsAndOrder query)) as [calls [e|cards]];
    reflexivity.
Qed.

End WithPlatform.

End Reading.

(** X25.  Reading a resource uses the last segment of the path of its
    URI and nothing before it: decoded, the segment is the filter
    expression of the card query; the ordered cards come back as one entry,
    JSON under the requested URI, and a failure of the query comes back as
    it is, not wrapped. *)
Theorem readResource_last_segment :
  forall {engine : Engine} {web : Web} (b : Backend)
         (requested dir segment query : str),
    URL_pathname requested = inr (dir ++ lit "/" ++ segment) ->
    segment <> [] ->
    ~ In 47%N segment ->
    decodeURIComponent segment = inr query ->
    run b (Resource.readResource requested) =
    match run b (findCardsAndOrder query) with
    | (calls, inr cards) =>
        (calls,
         inr {| Resource.contents :=
                  [ {| Resource.uri := requested;
                       Resource.mimeType := lit "application/json";
                       Resource.text := JSON_stringify (cards_value cards) |} ] |})
    | (calls, inl e) => (calls, inl e)
    end.
Proof.
  intros engine web b requested dir segment query Hpath Hne Hfree Hdecode.
  destruct segment as [|c segment]; [congruence|].
  rewrite (Reading.run_readResource b requested _ c segment Hpath
             (Reading.pop_last_segment dir (c :: segment) Hfree)).
  rewrite Hdecode. reflexivity.
Qed.

Lemma readResource_last_segment_witness :
  run Examples.deck
    (Resource.readResource (engine := Examples.simple)
       (web := MoreExamples.platform) (lit "anki://search/old/is:new"))
  = ([made (findCards (lit "is:new"))],
     inr {| Resource.contents :=
              [ {| Resource.uri := lit "anki://search/old/is:new";
                   Resource.mimeType := lit "application/json";
                   Resource.text := Some (lit "[]") |} ] |}).
Proof.
  apply (readResource_last_segment (engine := Examples.simple)
           (web := MoreExamples.platform) Examples.deck
           (lit "anki://search/old/is:new") (lit "/old") (lit "is:new")
           (lit "is:new")).
  - reflexivity.
  - discriminate.
  - vm_compute. intuition discriminate.
  - reflexivity.
Defined.

(** X26.  A URI whose path is empty or ends with a slash is refused with
    the error "Invalid resource URI", not wrapped, and the backend is not
    called. *)
Theorem readResource_without_segment :
  forall {engine : Engine} {web : Web} (b : Backend) (requested dir : str),
    URL_pathname requested = inr [] \/
    URL_pathname requested = inr (dir ++ lit "/") ->
    run b (Resource.readResource requested)
    = ([], inl (ThrownError (lit "Invalid resource URI"))).
Proof.
  intros engine web b requested dir [Hpath|Hpath];
    unfold Resource.readResource, run; rewrite Hpath;
    cbn [lift bind Monad_Prog then_].
  - reflexivity.
  - rewrite Reading.pop_no_segment. reflexivity.
Qed.

Lemma readResource_without_segment_witness :
  run Examples.deck
    (Resource.readResource (engine := Examples.simple)
       (web := MoreExamples.platform) (lit "anki://search/"))
  = ([], inl (ThrownError (lit "Invalid resource URI"))).
Proof.
  apply (readResource_without_segment (engine := Examples.simple)
           (web := MoreExamples.platform) Examples.deck (lit "anki://search/") []).
  right. reflexivity.
Defined.

(** X27.  A URI the platform cannot parse, or a last segment it cannot
    decode, fails the reading with what the platform threw, and the backend
    is not called. *)
Theorem readResource_rejected_uri :
  forall {engine : Engine} {web : Web} (b : Backend)
         (requested dir segment : str) (e : Thrown),
    URL_pathname requested = inl e \/
    (URL_pathname requested = inr (dir ++ lit "/" ++ segment)
     /\ segment <> [] /\ ~ In 47%N segment
     /\ decodeURIComponent segment = inl e) ->
    run b (Resource.readResource requested) = ([], inl e).
Proof.
  intros engine web b requested dir segment e
         [Hpath|(Hpath & Hne & Hfree & Hdecode)].
  - unfold Resource.readResource, run. rewrite Hpath. reflexivity.
  - destruct segment as [|c segment]; [congruence|].
    rewrite (Reading.run_readResource b requested _ c segment Hpath
               (Reading.pop_last_segment dir (c :: segment) Hfree)).
    rewrite Hdecode. reflexivity.
Qed.

Lemma readResource_rejected_uri_witness :
  run Examples.deck
    (Resource.readResource (engine := Examples.simple)
       (web := MoreExamples.platform) (lit "anki://search/deck%"))
  = ([], inl (ThrownError (lit "URI malformed"))).
Proof.
  apply (readResource_rejected_uri (engine := Examples.simple)
           (web := MoreExamples.platform) Examples.deck
           (lit "anki://search/deck%") [] (lit "deck%")).
  right. repeat split.
  - discriminate.
  - vm_compute. intuition discriminate.
Defined.

(** X28.  A listed resource that is read successfully is served as one
    entry, under its own URI and with the MIME type it is listed with. *)
Theorem listed_resource_served_as_listed :
  forall {engine : Engine} {web : Web} (b : Backend)
         (r : Listing.Descriptor) (calls : list Made)
         (result : Resource.ReadResult),
    In r Listing.resources ->
    run b (Resource.readResource (Listing.uri r)) = (calls, inr result) ->
    exists t : option str,
      Resource.contents result
      = [ {| Resource.uri := Listing.uri r;
             Resource.mimeType := Listing.mimeType r;
             Resource.text := t |} ].
Proof.
  intros engine web b r calls result Hin.
  assert (Hmime : Listing.mimeType r = lit "application/json")
    by (destruct Hin as [<-|[<-|[<-|[]]]]; reflexivity).
  rewrite Hmime. generalize (Listing.uri r) as requested. intros requested.
  unfold Resource.readResource, run.
  destruct (URL_pathname requested) as [e|path];
    cbn [lift bind Monad_Prog then_ run_from]; [discriminate|].
  destruct (Resource.pop (split 47%N path)) as [[|c segment]|];
    cbn [raise Exc_Prog run_from]; [discriminate| |discriminate].
  destruct (decodeURIComponent (c :: segment)) as [e|query];
    cbn [lift bind Monad_Prog then_ run_from]; [discriminate|].
  rewrite Running.run_from_then.
  destruct (run_from b [] (findCardsAndOrder query)) as [calls' [e|cards]];
    [discriminate|].
  intros H. injection H as _ <-. eexists. reflexivity.
Qed.

Lemma listed_resource_served_as_listed_witness :
  exists t : option str,
    Resource.contents
      {| Resource.contents :=
           [ {| Resource.uri := lit "anki://search/is:new";
                Resource.mimeType := lit "application/json";
                Resource.text := Some (lit "[]") |} ] |}
    = [ {| Resource.uri := lit "anki://search/is:new";
           Resource.mimeType := lit "application/json";
           Resource.text := t |} ].
Proof.
  apply (listed_resource_served_as_listed (engine := Examples.simple)
           (web := MoreExamples.platform) Examples.deck
           {| Listing.uri := lit "anki://search/is:new";
              Listing.mimeType := lit "application/json";
              Listing.name := lit "New cards";
              Listing.description := lit "All unseen cards" |}
           [made (findCards (lit "is:new"))]).
  - right. right. left. reflexivity.
  - reflexivity.
Defined.
